(** * Color Match Runner: the game logic of the component [ColorMatchRunner]

    The repository holds two copies of the component:
    [src/components/GameCanvas.tsx], and a revised copy that adds a
    level-up popup, replaces the random horizontal position of the gates
    by the centre, and slows the game down.  Both are embedded here, side
    by side, selected by a [Variant]: every definition below that differs
    between the two shows both bodies.

    Numbers.  The integer-valued numbers (score, level, colour indices,
    timers, particle lifetimes) are [Z]; the others (positions, speeds)
    are rationals [Q], computed without the rounding of doubles, on which
    none of the properties below depends.  [Math.floor] is [Qfloor]; [%]
    is [Z.rem].  [Math.sin] and [Math.random] are parameters of the
    model.

    State.  The [useState] cells and the mutable [gameStateRef] make one
    store, [World].  A callback reads [score], [level], [highScore] and
    [popupText] from the render that created it ([Snapshot]); the updates
    that it queues are applied to the store in the order of the calls.

    Exceptions.  [colors[i].value] throws a [TypeError] when [i] is not an
    index of [colors]; a step that throws is [None].

    Scheduling.  [requestAnimationFrame] and the effects of React are not
    modelled: a session is a list of events (button, input, frame) taken
    in any order, each seeing the values of the last render. *)

From Stdlib Require Import ZArith QArith Qround String Ascii List Bool Lia Lqa.
From Stdlib Require Import DecimalString.
Import ListNotations.

Local Open Scope Z_scope.

(** ** JavaScript primitives *)

Definition Math_floor (q : Q) : Z := Qfloor q.

(** [a < b] and [a > b] on numbers. *)
Definition Qltb (a b : Q) : bool := negb (Qle_bool b a).
Definition Qgtb (a b : Q) : bool := Qltb b a.

(** [`${n}`] for an integer [n]. *)
Definition toString (n : Z) : string := NilZero.string_of_int (Z.to_int n).

Definition newline : string := String (ascii_of_nat 10) EmptyString.

(** [arr.slice(0, e)]: a negative [e] counts from the end. *)
Definition slice0 {A} (arr : list A) (e : Z) : list A :=
  let len := Z.of_nat (length arr) in
  let k := if e <? 0 then Z.max (len + e) 0 else Z.min e len in
  firstn (Z.to_nat k) arr.

(** [arr[i]]: [undefined] outside the array. *)
Definition index {A} (arr : list A) (i : Z) : option A :=
  if i <? 0 then None else nth_error arr (Z.to_nat i).

(** [s.startsWith(p)] *)
Definition startsWith (s p : string) : bool := String.prefix p s.

Notation "x <- c ;; k" :=
  (match c with Some x => k | None => None end)
  (at level 61, c at next level, right associativity).

(** ** Data model *)

Record Color := { name : string; value : string; shadow : string }.

Definition ALL_COLORS : list Color :=
  [ {| name := "Red";    value := "#ff3b30"; shadow := "#ff3b3080" |};
    {| name := "Blue";   value := "#007aff"; shadow := "#007aff80" |};
    {| name := "Yellow"; value := "#ffcc00"; shadow := "#ffcc0080" |};
    {| name := "Green";  value := "#34c759"; shadow := "#34c75980" |};
    {| name := "Purple"; value := "#af52de"; shadow := "#af52de80" |} ].

Record Ball := {
  ball_x : Q;
  ball_y : Q;
  ball_colorIndex : Z;
  ball_radius : Q;
  ball_bounceOffset : Q;
  ball_bounceSpeed : Q
}.

Record Obstacle := {
  ob_x : Q;
  ob_y : Q;
  ob_width : Q;
  ob_height : Q;
  ob_colorIndex : Z;
  ob_passed : bool
}.

Record Particle := {
  pt_x : Q;
  pt_y : Q;
  pt_vx : Q;
  pt_vy : Q;
  pt_life : Z;
  pt_color : string
}.

(** [gameStateRef.current] *)
Record GameState := {
  ball : Ball;
  obstacles : list Obstacle;
  gameSpeed : Q;
  obstacleTimer : Z;
  gameRunning : bool;
  ref_gameStarted : bool;
  particles : list Particle
}.

(** The [useState] cells of the component. *)
Record ReactState := {
  score : Z;
  level : Z;
  showPopup : bool;
  popupText : string;
  gameStarted : bool;
  highScore : Z
}.

(** The whole store: the React state, the mutable ref, and the position
    reached in the pseudo-random sequence. *)
Record World := {
  react : ReactState;
  game : GameState;
  seed : nat
}.

(** The two revisions of the component. *)
Inductive Variant := GameCanvas | Revised.

(** The values of [score], [level], [highScore] and [popupText] that the
    callbacks of one render close over. *)
Record Snapshot := {
  s_score : Z;
  s_level : Z;
  s_highScore : Z;
  s_popupText : string
}.

Definition render (w : World) : Snapshot :=
  {| s_score := score (react w);
     s_level := level (react w);
     s_highScore := highScore (react w);
     s_popupText := popupText (react w) |}.

(** *** Field updates *)

Definition with_react (f : ReactState -> ReactState) (w : World) : World :=
  {| react := f (react w); game := game w; seed := seed w |}.

Definition with_game (f : GameState -> GameState) (w : World) : World :=
  {| react := react w; game := f (game w); seed := seed w |}.

Definition setScore (f : Z -> Z) (r : ReactState) : ReactState :=
  {| score := f (score r); level := level r; showPopup := showPopup r;
     popupText := popupText r; gameStarted := gameStarted r;
     highScore := highScore r |}.

Definition setLevel (l : Z) (r : ReactState) : ReactState :=
  {| score := score r; level := l; showPopup := showPopup r;
     popupText := popupText r; gameStarted := gameStarted r;
     highScore := highScore r |}.

Definition setShowPopup (b : bool) (r : ReactState) : ReactState :=
  {| score := score r; level := level r; showPopup := b;
     popupText := popupText r; gameStarted := gameStarted r;
     highScore := highScore r |}.

Definition setPopupText (s : string) (r : ReactState) : ReactState :=
  {| score := score r; level := level r; showPopup := showPopup r;
     popupText := s; gameStarted := gameStarted r;
     highScore := highScore r |}.

Definition setGameStarted (b : bool) (r : ReactState) : ReactState :=
  {| score := score r; level := level r; showPopup := showPopup r;
     popupText := popupText r; gameStarted := b;
     highScore := highScore r |}.

Definition setHighScore (h : Z) (r : ReactState) : ReactState :=
  {| score := score r; level := level r; showPopup := showPopup r;
     popupText := popupText r; gameStarted := gameStarted r;
     highScore := h |}.

Definition set_ball (b : Ball) (g : GameState) : GameState :=
  {| ball := b; obstacles := obstacles g; gameSpeed := gameSpeed g;
     obstacleTimer := obstacleTimer g; gameRunning := gameRunning g;
     ref_gameStarted := ref_gameStarted g; particles := particles g |}.

Definition set_obstacles (os : list Obstacle) (g : GameState) : GameState :=
  {| ball := ball g; obstacles := os; gameSpeed := gameSpeed g;
     obstacleTimer := obstacleTimer g; gameRunning := gameRunning g;
     ref_gameStarted := ref_gameStarted g; particles := particles g |}.

Definition set_gameSpeed (s : Q) (g : GameState) : GameState :=
  {| ball := ball g; obstacles := obstacles g; gameSpeed := s;
     obstacleTimer := obstacleTimer g; gameRunning := gameRunning g;
     ref_gameStarted := ref_gameStarted g; particles := particles g |}.

Definition set_obstacleTimer (t : Z) (g : GameState) : GameState :=
  {| ball := ball g; obstacles := obstacles g; gameSpeed := gameSpeed g;
     obstacleTimer := t; gameRunning := gameRunning g;
     ref_gameStarted := ref_gameStarted g; particles := particles g |}.

Definition set_gameRunning (b : bool) (g : GameState) : GameState :=
  {| ball := ball g; obstacles := obstacles g; gameSpeed := gameSpeed g;
     obstacleTimer := obstacleTimer g; gameRunning := b;
     ref_gameStarted := ref_gameStarted g; particles := particles g |}.

Definition set_ref_gameStarted (b : bool) (g : GameState) : GameState :=
  {| ball := ball g; obstacles := obstacles g; gameSpeed := gameSpeed g;
     obstacleTimer := obstacleTimer g; gameRunning := gameRunning g;
     ref_gameStarted := b; particles := particles g |}.

Definition set_particles (ps : list Particle) (g : GameState) : GameState :=
  {| ball := ball g; obstacles := obstacles g; gameSpeed := gameSpeed g;
     obstacleTimer := obstacleTimer g; gameRunning := gameRunning g;
     ref_gameStarted := ref_gameStarted g; particles := ps |}.

Definition set_colorIndex (i : Z) (b : Ball) : Ball :=
  {| ball_x := ball_x b; ball_y := ball_y b; ball_colorIndex := i;
     ball_radius := ball_radius b; ball_bounceOffset := ball_bounceOffset b;
     ball_bounceSpeed := ball_bounceSpeed b |}.

Definition set_bounceOffset (o : Q) (b : Ball) : Ball :=
  {| ball_x := ball_x b; ball_y := ball_y b;
     ball_colorIndex := ball_colorIndex b;
     ball_radius := ball_radius b; ball_bounceOffset := o;
     ball_bounceSpeed := ball_bounceSpeed b |}.

Definition set_ob_y (y : Q) (o : Obstacle) : Obstacle :=
  {| ob_x := ob_x o; ob_y := y; ob_width := ob_width o;
     ob_height := ob_height o; ob_colorIndex := ob_colorIndex o;
     ob_passed := ob_passed o |}.

Definition set_ob_passed (p : bool) (o : Obstacle) : Obstacle :=
  {| ob_x := ob_x o; ob_y := ob_y o; ob_width := ob_width o;
     ob_height := ob_height o; ob_colorIndex := ob_colorIndex o;
     ob_passed := p |}.

(** The canvas element: [width={320} height={600}]. *)
Definition canvasWidth : Q := 320.
Definition canvasHeight : Q := 600.

(** The initial value of [gameStateRef] and of the state cells. *)
Definition initialWorld : World :=
  {| react := {| score := 0; level := 1; showPopup := false;
                 popupText := ""; gameStarted := false; highScore := 0 |};
     game := {| ball := {| ball_x := 150; ball_y := 500;
                           ball_colorIndex := 0; ball_radius := 20;
                           ball_bounceOffset := 0;
                           ball_bounceSpeed := 15 # 100 |};
                obstacles := []; gameSpeed := 2; obstacleTimer := 0;
                gameRunning := true; ref_gameStarted := false;
                particles := [] |};
     seed := 0%nat |}.

(** ** Level and colours *)

(** [Math.min(Math.floor(score / 200) + 1, 5)] *)
Definition newLevel (score : Z) : Z :=
  Z.min (Math_floor (inject_Z score / 200) + 1) 5.

(** [ALL_COLORS.slice(0, Math.min(currentLevel + 1, 5))] *)
Definition getCurrentLevelColors (currentLevel : Z) : list Color :=
  slice0 ALL_COLORS (Z.min (currentLevel + 1) 5).

(** [colors.length] for the colours of a level. *)
Definition colorCount (currentLevel : Z) : Z :=
  Z.of_nat (length (getCurrentLevelColors currentLevel)).

(** [changeColor]: the remainder of a division by zero is [NaN] in
    JavaScript; [colors] is empty only for a level of [-1] or below [-5],
    and the component never holds such a level. *)
Definition changeColor (snap : Snapshot) (w : World) : World :=
  if negb (gameRunning (game w)) then w
  else
    let colors := getCurrentLevelColors (s_level snap) in
    with_game (fun g =>
      set_ball (set_colorIndex
                  (Z.rem (ball_colorIndex (ball g) + 1)
                         (Z.of_nat (length colors)))
                  (ball g)) g) w.

(** ** The component *)

Section Model.

(** The values returned by the successive calls of [Math.random()], and
    [Math.sin]. *)
Variable rand : nat -> Q.
Variable Math_sin : Q -> Q.

Definition Math_random (w : World) : Q * World :=
  (rand (seed w), {| react := react w; game := game w; seed := S (seed w) |}).

(** *** [createParticles] *)

(** One turn of the loop: the four calls of [Math.random()] are made in
    the order of the fields. *)
Definition pushParticle (x y : Q) (color : string) (isSuccess : bool)
    (w : World) : World :=
  let '(r1, w) := Math_random w in
  let '(r2, w) := Math_random w in
  let '(r3, w) := Math_random w in
  let '(r4, w) := Math_random w in
  let p :=
    {| pt_x := (x + (r1 - (5 # 10)) * 40)%Q;
       pt_y := (y + (r2 - (5 # 10)) * 40)%Q;
       pt_vx := ((r3 - (5 # 10)) * (if isSuccess then 8 else 4))%Q;
       pt_vy := ((r4 - (5 # 10)) * (if isSuccess then 8 else 4) - 2)%Q;
       pt_life := if isSuccess then 60 else 30;
       pt_color := if isSuccess then color else "#ff4444" |} in
  with_game (fun g => set_particles (particles g ++ [p]) g) w.

Fixpoint pushParticles (count : nat) (x y : Q) (color : string)
    (isSuccess : bool) (w : World) : World :=
  match count with
  | O => w
  | S k => pushParticles k x y color isSuccess
             (pushParticle x y color isSuccess w)
  end.

Definition createParticles (x y : Q) (color : string) (isSuccess : bool)
    (w : World) : World :=
  let particleCount := if isSuccess then 15%nat else 8%nat in
  pushParticles particleCount x y color isSuccess w.

(** *** [handleGameOver] *)

Definition gameOverText (v : Variant) (score newHighScore level : Z)
    : string :=
  ("Game Over!" ++ newline ++
   "Score: " ++ toString score ++ newline ++
   "High Score: " ++ toString newHighScore ++ newline ++
   match v with
   | GameCanvas => "Level Reached: "
   | Revised => "Level: "
   end ++ toString level)%string.

Definition handleGameOver (v : Variant) (snap : Snapshot) (w : World)
    : World :=
  let w := with_game (set_gameRunning false) w in
  let newHighScore := Z.max (s_score snap) (s_highScore snap) in
  let w := with_react (setHighScore newHighScore) w in
  let w := with_react
             (setPopupText
                (gameOverText v (s_score snap) newHighScore (s_level snap)))
             w in
  with_react (setShowPopup true) w.

(** *** Scoring *)

Definition levelCompleteText (level newScore newLevel : Z) : string :=
  ("Level " ++ toString level ++ " Complete!" ++ newline ++
   "Score: " ++ toString newScore ++ newline ++
   "Now for Level " ++ toString newLevel ++ ": " ++
     toString (Z.min (newLevel + 1) 5) ++ " Colors" ++ newline ++
   "and speed increased!")%string.

(** The call of [setScore] on a correct match.  [GameCanvas]:
    [setScore((prev) => prev + 10)].  [Revised]: the updater also opens
    the level-up popup when the new score reaches a level above the
    level of the render. *)
Definition awardPoints (v : Variant) (snap : Snapshot) (w : World)
    : World :=
  match v with
  | GameCanvas => with_react (setScore (fun prev => prev + 10)) w
  | Revised =>
      let newScore := score (react w) + 10 in
      let newLevel := newLevel newScore in
      let w :=
        if newLevel >? s_level snap then
          let w := with_react
                     (setPopupText
                        (levelCompleteText (s_level snap) newScore newLevel))
                     w in
          let w := with_react (setShowPopup true) w in
          let w := with_game (set_gameRunning false) w in
          with_react (setLevel newLevel) w
        else w in
      with_react (setScore (fun _ => newScore)) w
  end.

(** *** The obstacle filter *)

Definition collision (b : Ball) (bounceHeight : Q) (o : Obstacle) : bool :=
  let ballLeft := (ball_x b - ball_radius b)%Q in
  let ballRight := (ball_x b + ball_radius b)%Q in
  let ballTop := (ball_y b - ball_radius b + bounceHeight)%Q in
  let ballBottom := (ball_y b + ball_radius b + bounceHeight)%Q in
  let obstacleLeft := ob_x o in
  let obstacleRight := (ob_x o + ob_width o)%Q in
  let obstacleTop := ob_y o in
  let obstacleBottom := (ob_y o + ob_height o)%Q in
  Qgtb ballRight obstacleLeft &&
  Qltb ballLeft obstacleRight &&
  Qgtb ballBottom obstacleTop &&
  Qltb ballTop obstacleBottom.

(** The end of the callback: the mark of a gate that went by, and the
    test that keeps the gate. *)
Definition markAndKeep (o : Obstacle) (w : World) : bool * Obstacle :=
  let b := ball (game w) in
  let o :=
    if negb (ob_passed o) &&
       Qgtb (ob_y o) (ball_y b + ball_radius b + 20)%Q
    then set_ob_passed true o else o in
  (Qltb (ob_y o) (canvasHeight + 50)%Q, o).

(** The callback of [state.obstacles.filter]: the result of the test, the
    gate as the callback leaves it, and the store. *)
Definition obstacleStep (v : Variant) (snap : Snapshot) (bounceHeight : Q)
    (o : Obstacle) (w : World) : option (bool * Obstacle * World) :=
  let colors := getCurrentLevelColors (s_level snap) in
  let state := game w in
  let o := set_ob_y (ob_y o + gameSpeed state)%Q o in
  if collision (ball state) bounceHeight o && negb (ob_passed o) then
    if ball_colorIndex (ball state) =? ob_colorIndex o then
      let w := awardPoints v snap w in
      c <- index colors (ob_colorIndex o) ;;
      let w := createParticles (ob_x o + ob_width o / 2)%Q
                               (ob_y o + ob_height o / 2)%Q
                               (value c) true w in
      let o := set_ob_passed true o in
      let '(keep, o) := markAndKeep o w in
      Some (keep, o, w)
    else
      let w := createParticles (ball_x (ball state)) (ball_y (ball state))
                               "#ff4444" false w in
      let w := handleGameOver v snap w in
      Some (false, o, w)
  else
    let '(keep, o) := markAndKeep o w in
    Some (keep, o, w).

Fixpoint filterObstacles (v : Variant) (snap : Snapshot) (bounceHeight : Q)
    (os : list Obstacle) (w : World) : option (list Obstacle * World) :=
  match os with
  | [] => Some ([], w)
  | o :: rest =>
      r <- obstacleStep v snap bounceHeight o w ;;
      let '(keep, o', w) := r in
      r' <- filterObstacles v snap bounceHeight rest w ;;
      let '(kept, w) := r' in
      Some (if keep then o' :: kept else kept, w)
  end.

(** *** Speed and spawning *)

Definition speedFor (v : Variant) (score : Z) : Q :=
  let baseSpeed := 2%Q in
  let speedIncrease :=
    (inject_Z (Math_floor (inject_Z score / 100)) *
     match v with GameCanvas => 5 # 10 | Revised => 25 # 100 end)%Q in
  (baseSpeed + speedIncrease)%Q.

Definition obstacleFrequency (v : Variant) (score : Z) : Z :=
  match v with
  | GameCanvas => Z.max (80 - Math_floor (inject_Z score / 50)) 40
  | Revised => Z.max (100 - Math_floor (inject_Z score / 200)) 50
  end.

(** [Revised]: the gate dimensions of the loop. *)
Definition gateWidth : Q := 140.
Definition gateHeight : Q := 80.
Definition centerX : Q := (canvasWidth / 2 - gateWidth / 2)%Q.

(** The object pushed on [state.obstacles]. *)
Definition spawnObstacle (v : Variant) (colors : list Color) (w : World)
    : Obstacle * World :=
  match v with
  | GameCanvas =>
      let '(r1, w) := Math_random w in
      let '(r2, w) := Math_random w in
      ({| ob_x := (r1 * (canvasWidth - 80) + 40)%Q;
          ob_y := (- (50))%Q;
          ob_width := 60;
          ob_height := 30;
          ob_colorIndex :=
            Math_floor (r2 * inject_Z (Z.of_nat (length colors)));
          ob_passed := false |}, w)
  | Revised =>
      let '(r1, w) := Math_random w in
      ({| ob_x := centerX;
          ob_y := (- gateHeight)%Q;
          ob_width := gateWidth;
          ob_height := gateHeight;
          ob_colorIndex :=
            Math_floor (r1 * inject_Z (Z.of_nat (length colors)));
          ob_passed := false |}, w)
  end.

Definition generateObstacles (v : Variant) (snap : Snapshot) (w : World)
    : World :=
  let colors := getCurrentLevelColors (s_level snap) in
  let w := with_game
             (fun g => set_obstacleTimer (obstacleTimer g + 1) g) w in
  if obstacleTimer (game w) >=? obstacleFrequency v (s_score snap) then
    let '(o, w) := spawnObstacle v colors w in
    let w := with_game (fun g => set_obstacles (obstacles g ++ [o]) g) w in
    with_game (set_obstacleTimer 0) w
  else w.

(** *** The particle filter *)

(** The callback of [state.particles.filter]: the particle as the
    callback leaves it, and the result of the test. *)
Definition particleStep (p : Particle) : Particle * bool :=
  let p' :=
    {| pt_x := (pt_x p + pt_vx p)%Q;
       pt_y := (pt_y p + pt_vy p)%Q;
       pt_vx := pt_vx p;
       pt_vy := (pt_vy p + (3 # 10))%Q;
       pt_life := pt_life p - 1;
       pt_color := pt_color p |} in
  (p', pt_life p' >? 0).

Fixpoint filterParticles (ps : list Particle) : list Particle :=
  match ps with
  | [] => []
  | p :: rest =>
      let '(p', keep) := particleStep p in
      if keep then p' :: filterParticles rest else filterParticles rest
  end.

Definition updateParticles (w : World) : World :=
  with_game (fun g => set_particles (filterParticles (particles g)) g) w.

(** *** Drawing

    Only what the drawing code does to the store is kept: [GameCanvas]
    moves every gate to the centre and resizes it; both versions read
    [colors[obstacle.colorIndex]] and [colors[state.ball.colorIndex]],
    which throws outside [colors]. *)
Definition drawObstacle (v : Variant) (colors : list Color) (o : Obstacle)
    : option Obstacle :=
  match v with
  | GameCanvas =>
      let gateWidth := 120%Q in
      let gateHeight := 60%Q in
      let centerX := (canvasWidth / 2 - gateWidth / 2)%Q in
      let o := {| ob_x := centerX; ob_y := ob_y o; ob_width := gateWidth;
                  ob_height := gateHeight;
                  ob_colorIndex := ob_colorIndex o;
                  ob_passed := ob_passed o |} in
      _ <- index colors (ob_colorIndex o) ;;
      Some o
  | Revised =>
      _ <- index colors (ob_colorIndex o) ;;
      Some o
  end.

Fixpoint drawObstacles (v : Variant) (colors : list Color)
    (os : list Obstacle) : option (list Obstacle) :=
  match os with
  | [] => Some []
  | o :: rest =>
      o' <- drawObstacle v colors o ;;
      rest' <- drawObstacles v colors rest ;;
      Some (o' :: rest')
  end.

Definition draw (v : Variant) (colors : list Color) (w : World)
    : option World :=
  os <- drawObstacles v colors (obstacles (game w)) ;;
  let w := with_game (set_obstacles os) w in
  _ <- index colors (ball_colorIndex (ball (game w))) ;;
  Some w.

(** *** [animate] *)

(** [Revised] has two copies of the loop: the one of the main effect,
    and the one that [handlePopupAction] starts, which does not update
    the level. *)
Inductive Loop := MainLoop | PopupLoop.

Definition updateLevel (snap : Snapshot) (w : World) : World :=
  let newLevel := newLevel (s_score snap) in
  if negb (newLevel =? s_level snap) then with_react (setLevel newLevel) w
  else w.

(** The head of [animate]: the speed, the level (main loop only) and the
    phase of the bounce. *)
Definition beginFrame (v : Variant) (loop : Loop) (snap : Snapshot)
    (w : World) : World :=
  let w := with_game (set_gameSpeed (speedFor v (s_score snap))) w in
  let w := match loop with
           | MainLoop => updateLevel snap w
           | PopupLoop => w
           end in
  with_game
    (fun g =>
       set_ball (set_bounceOffset
                   (ball_bounceOffset (ball g) + ball_bounceSpeed (ball g))%Q
                   (ball g)) g)
    w.

Definition animate (v : Variant) (loop : Loop) (snap : Snapshot)
    (w : World) : option World :=
  if negb (gameRunning (game w)) then Some w
  else
    let colors := getCurrentLevelColors (s_level snap) in
    let w := beginFrame v loop snap w in
    let bounceHeight :=
      (Math_sin (ball_bounceOffset (ball (game w))) * 5)%Q in
    let w := generateObstacles v snap w in
    r <- filterObstacles v snap bounceHeight (obstacles (game w)) w ;;
    let '(kept, w) := r in
    let w := with_game (set_obstacles kept) w in
    let w := updateParticles w in
    draw v colors w.

(** *** The popup button and the start button *)

(** The assignments of [handlePopupAction]. *)
Definition popupReset (v : Variant) (snap : Snapshot) (w : World) : World :=
  let w := with_react (setShowPopup false) w in
  match v with
  | GameCanvas =>
      let w := with_react (setScore (fun _ => 0)) w in
      let w := with_react (setLevel 1) w in
      let w := with_game (set_obstacles []) w in
      let w := with_game (set_particles []) w in
      let w := with_game (fun g => set_ball (set_colorIndex 0 (ball g)) g)
                         w in
      let w := with_game (set_gameSpeed 2) w in
      let w := with_game (set_obstacleTimer 0) w in
      with_game (set_gameRunning true) w
  | Revised =>
      if startsWith (s_popupText snap) "Game Over" then
        let w := with_react (setScore (fun _ => 0)) w in
        let w := with_game (set_obstacles []) w in
        let w := with_game (set_particles []) w in
        let w := with_game
                   (fun g => set_ball (set_colorIndex 0 (ball g)) g) w in
        let w := with_game
                   (set_gameSpeed
                      (2 + inject_Z
                             (Math_floor
                                (inject_Z ((s_level snap - 1) * 100) / 100))
                           * (25 # 100))%Q) w in
        let w := with_game (set_obstacleTimer 0) w in
        let w := with_game (set_gameRunning true) w in
        with_game (set_ref_gameStarted true) w
      else
        let w := with_game (set_gameRunning true) w in
        let w := with_game (set_ref_gameStarted true) w in
        let w := with_game (set_obstacles []) w in
        let w := with_game (set_particles []) w in
        with_game (set_obstacleTimer 0) w
  end.

(** [handlePopupAction].  [Revised] then starts its copy of the loop,
    whose first frame runs at once, with the values of the render of the
    button. *)
Definition handlePopupAction (v : Variant) (snap : Snapshot) (w : World)
    : option World :=
  let w := popupReset v snap w in
  match v with
  | GameCanvas => Some w
  | Revised => animate Revised PopupLoop snap w
  end.

Definition startGame (w : World) : World :=
  let w := with_react (setGameStarted true) w in
  let w := with_game (set_ref_gameStarted true) w in
  with_game (set_gameRunning true) w.

(** *** The session *)

(** What can happen to the component: a press of the start button, an
    input (key, touch or click), a frame of one of the loops, a press of
    the popup button. *)
Inductive Event := EStart | EInput | EFrame (loop : Loop) | EAck.

(** Every callback sees the values of the last render.  The start button
    is on the page before the start only, the popup button while the
    popup is shown; the input handlers and the main effect return at
    once before the start. *)
Definition step (v : Variant) (w : World) (e : Event) : option World :=
  let snap := render w in
  match e with
  | EStart =>
      if gameStarted (react w) then Some w else Some (startGame w)
  | EInput =>
      if negb (gameStarted (react w)) || negb (gameRunning (game w))
      then Some w
      else Some (changeColor snap w)
  | EFrame loop =>
      if negb (gameStarted (react w)) then Some w
      else
        match v, loop with
        | GameCanvas, PopupLoop => Some w
        | _, _ => animate v loop snap w
        end
  | EAck =>
      if gameStarted (react w) && showPopup (react w)
      then handlePopupAction v snap w
      else Some w
  end.

Fixpoint run (v : Variant) (w : World) (es : list Event) : option World :=
  match es with
  | [] => Some w
  | e :: rest => w' <- step v w e ;; run v w' rest
  end.

(** *** The states of the session *)

Inductive Session := NotStarted | Running | PausedLevelUp | Ended.

Definition session (w : World) : Session :=
  if negb (gameStarted (react w)) then NotStarted
  else if gameRunning (game w) then Running
  else if startsWith (popupText (react w)) "Game Over" then Ended
  else PausedLevelUp.

End Model.

(** ** Auxiliary notions *)

(** A particle in the collection has frames left to live. *)
Definition alive (p : Particle) : Prop := 1 <= pt_life p.


(** The life of one gate.  In each frame the callback of the obstacle
    filter runs on the gate once, in the store and with the render and
    bounce of that frame, and the drawing code then touches the gate if
    the filter kept it.  The history records, frame by frame, the [passed]
    flag that the callback leaves and the points that it adds to the
    score; it stops when the gate is dropped. *)
Record Frame := {
  f_snap : Snapshot;
  f_bounceHeight : Q;
  f_world : World
}.

Fixpoint gateHistory (rand : nat -> Q) (v : Variant) (frames : list Frame)
    (o : Obstacle) : list (bool * Z) :=
  match frames with
  | [] => []
  | f :: rest =>
      match obstacleStep rand v (f_snap f) (f_bounceHeight f) o (f_world f)
      with
      | None => []
      | Some (keep, o', w') =>
          (ob_passed o', score (react w') - score (react (f_world f))) ::
          (if keep then
             match drawObstacle v
                     (getCurrentLevelColors (s_level (f_snap f))) o' with
             | Some o'' => gateHistory rand v rest o''
             | None => []
             end
           else [])
      end
  end.

(** The gate is in the middle of the canvas. *)
Definition centred (o : Obstacle) : Prop :=
  (ob_x o + ob_width o / 2 == canvasWidth / 2)%Q.

(** The particle that [createParticles] builds from the four values of
    [Math.random()] that start at position [n] of the sequence. *)
Definition sparkFrom (rand : nat -> Q) (x y : Q) (color : string)
    (isSuccess : bool) (n : nat) : Particle :=
  {| pt_x := (x + (rand n - (5 # 10)) * 40)%Q;
     pt_y := (y + (rand (n + 1)%nat - (5 # 10)) * 40)%Q;
     pt_vx := ((rand (n + 2)%nat - (5 # 10))
               * (if isSuccess then 8 else 4))%Q;
     pt_vy := ((rand (n + 3)%nat - (5 # 10))
               * (if isSuccess then 8 else 4) - 2)%Q;
     pt_life := if isSuccess then 60 else 30;
     pt_color := if isSuccess then color else "#ff4444" |}.

(** What every store of a session satisfies (see [run_sound]).  The React
    state: the score and the high score are multiples of 10 that are not
    negative, the level is one of 1 to 5. *)
Definition reactSound (r : ReactState) : Prop :=
  0 <= score r /\ score r mod 10 = 0 /\
  1 <= level r <= 5 /\
  0 <= highScore r /\ highScore r mod 10 = 0.

(** The largest value of [obstacleFrequency]. *)
Definition timerCap (v : Variant) : Z :=
  match v with GameCanvas => 80 | Revised => 100 end.

(** The ref: the spawn timer is under the largest threshold, the ball is
    where [gameStateRef] was created with it, and every gate is above the
    line where the filter drops it and is marked once its top is more than
    20 under the bottom of the ball. *)
Definition refSound (v : Variant) (g : GameState) : Prop :=
  0 <= obstacleTimer g < timerCap v /\
  (ball_x (ball g) = 150%Q /\ ball_y (ball g) = 500%Q /\
   ball_radius (ball g) = 20%Q /\ ball_bounceSpeed (ball g) = 15 # 100) /\
  Forall (fun o => (ob_y o < canvasHeight + 50)%Q /\
                   ((500 + 20 + 20 < ob_y o)%Q -> ob_passed o = true))
         (obstacles g).

Definition sound (v : Variant) (w : World) : Prop :=
  reactSound (react w) /\ refSound v (game w).

(** ** Sample values *)

Definition sampleRand (n : nat) : Q := 1 # 2.
Definition sampleSin (x : Q) : Q := 0.

(** The store after a press of the start button. *)
Definition sampleWorld : World := startGame initialWorld.

(** A gate of [Revised] with the top at [y]. *)
Definition sampleGate (y : Q) (colorIndex : Z) : Obstacle :=
  {| ob_x := 90; ob_y := y; ob_width := 140; ob_height := 80;
     ob_colorIndex := colorIndex; ob_passed := false |}.

Definition sampleSnapshot : Snapshot := render sampleWorld.

(** * Properties *)

(** ** Arithmetic of the primitives *)

Lemma Math_floor_quotient (n : Z) (d : positive) :
  Math_floor (inject_Z n / inject_Z (Zpos d)) = n / Zpos d.
Proof. unfold Math_floor. symmetry. apply Zdiv_Qdiv. Qed.

Lemma newLevel_div (s : Z) : newLevel s = Z.min (s / 200 + 1) 5.
Proof.
  unfold newLevel.
  change (200%Q) with (inject_Z 200).
  now rewrite Math_floor_quotient.
Qed.

Lemma newLevel_mono (s t : Z) : s <= t -> newLevel s <= newLevel t.
Proof.
  intros Hst. rewrite !newLevel_div.
  assert (s / 200 <= t / 200) by (apply Z.div_le_mono; lia).
  lia.
Qed.

Lemma newLevel_range (s : Z) : 0 <= s -> 1 <= newLevel s <= 5.
Proof.
  intros Hs. rewrite newLevel_div.
  assert (0 <= s / 200) by (apply Z.div_pos; lia).
  lia.
Qed.

Lemma Qltb_lt (a b : Q) : Qltb a b = true <-> (a < b)%Q.
Proof.
  unfold Qltb. rewrite negb_true_iff.
  destruct (Qle_bool b a) eqn:E.
  - apply Qle_bool_iff in E. split; [discriminate|].
    intros H. exfalso. exact (Qlt_not_le _ _ H E).
  - split; [intros _|reflexivity].
    apply Qnot_le_lt. intros H. apply Qle_bool_iff in H. congruence.
Qed.

(** [Math.floor(Math.random() * n)] is an index below [n]. *)
Lemma random_index (r : Q) (n : Z) :
  (0 <= r)%Q -> (r < 1)%Q -> 0 < n ->
  0 <= Math_floor (r * inject_Z n) < n.
Proof.
  intros H0 H1 Hn. unfold Math_floor.
  assert (Hq : (inject_Z 0 < inject_Z n)%Q) by (rewrite <- Zlt_Qlt; exact Hn).
  split.
  - change 0 with (Qfloor (inject_Z 0)).
    apply Qfloor_resp_le.
    apply Qmult_le_0_compat; [exact H0 | apply Qlt_le_weak, Hq].
  - rewrite Zlt_Qlt.
    apply Qle_lt_trans with (r * inject_Z n)%Q; [apply Qfloor_le|].
    rewrite <- (Qmult_1_l (inject_Z n)) at 2.
    apply Qmult_lt_compat_r; assumption.
Qed.

(** ** Colours of a level *)

Lemma colorCount_level (L : Z) :
  -1 <= L -> colorCount L = Z.min (L + 1) 5.
Proof.
  intros HL. unfold colorCount, getCurrentLevelColors, slice0.
  assert (E : (Z.min (L + 1) 5 <? 0) = false) by (apply Z.ltb_ge; lia).
  rewrite E, length_firstn. simpl length. lia.
Qed.

Lemma index_in_range {A} (arr : list A) (i : Z) :
  0 <= i < Z.of_nat (length arr) -> exists a, index arr i = Some a.
Proof.
  intros [H0 H1]. unfold index.
  assert (E : (i <? 0) = false) by (apply Z.ltb_ge; lia).
  rewrite E.
  destruct (nth_error arr (Z.to_nat i)) eqn:N; [eauto|].
  apply nth_error_None in N. lia.
Qed.

Lemma index_some_range {A} (arr : list A) (i : Z) (a : A) :
  index arr i = Some a -> 0 <= i < Z.of_nat (length arr).
Proof.
  unfold index. destruct (i <? 0) eqn:E; [discriminate|].
  apply Z.ltb_ge in E. intros N.
  assert (Z.to_nat i < length arr)%nat
    by (apply nth_error_Some; congruence).
  lia.
Qed.

(** ** [changeColor] *)

Lemma changeColor_running (snap : Snapshot) (w : World) :
  gameRunning (game (changeColor snap w)) = gameRunning (game w).
Proof.
  unfold changeColor. destruct (gameRunning (game w)) eqn:E; simpl; auto.
Qed.

Lemma changeColor_index (snap : Snapshot) (w : World) :
  gameRunning (game w) = true ->
  ball_colorIndex (ball (game (changeColor snap w))) =
  Z.rem (ball_colorIndex (ball (game w)) + 1) (colorCount (s_level snap)).
Proof.
  intros R. unfold changeColor. rewrite R. reflexivity.
Qed.

Lemma changeColor_iter (snap : Snapshot) (w : World) (k : nat) :
  gameRunning (game w) = true ->
  0 <= ball_colorIndex (ball (game w)) < colorCount (s_level snap) ->
  gameRunning (game (Nat.iter k (changeColor snap) w)) = true /\
  ball_colorIndex (ball (game (Nat.iter k (changeColor snap) w))) =
  (ball_colorIndex (ball (game w)) + Z.of_nat k) mod colorCount (s_level snap).
Proof.
  intros R Hi. induction k as [|k [Rk Ik]].
  - split; [exact R|]. cbn [Nat.iter].
    rewrite Z.add_0_r, Z.mod_small; [reflexivity | exact Hi].
  - change (Nat.iter (S k) (changeColor snap) w)
      with (changeColor snap (Nat.iter k (changeColor snap) w)).
    split; [rewrite changeColor_running; exact Rk|].
    rewrite changeColor_index, Ik by exact Rk.
    assert (0 <= (ball_colorIndex (ball (game w)) + Z.of_nat k)
                 mod colorCount (s_level snap))
      by (apply Z.mod_pos_bound; lia).
    rewrite Z.rem_mod_nonneg by lia.
    rewrite Zplus_mod_idemp_l. f_equal. lia.
Qed.

(** ** The store across the callbacks *)

Section Callbacks.

Variable rand : nat -> Q.

Lemma pushParticles_spec (count : nat) (x y : Q) (color : string)
    (isSuccess : bool) (w : World) :
  react (pushParticles rand count x y color isSuccess w) = react w /\
  exists ps,
    game (pushParticles rand count x y color isSuccess w) =
      set_particles (particles (game w) ++ ps) (game w) /\
    length ps = count /\
    Forall (fun p => pt_life p = if isSuccess then 60 else 30) ps.
Proof.
  revert w. induction count as [|k IH]; intros w.
  - split; [reflexivity|]. exists []. cbn [pushParticles].
    rewrite app_nil_r. destruct w as [r [] s]. repeat split. constructor.
  - cbn [pushParticles].
    destruct (IH (pushParticle rand x y color isSuccess w))
      as [Hr [ps [Hg [Hl Hf]]]].
    split; [rewrite Hr; reflexivity|].
    eexists (_ :: ps). rewrite Hg. cbn.
    rewrite <- app_assoc. cbn.
    repeat split; [now rewrite Hl|].
    constructor; [reflexivity | exact Hf].
Qed.

Lemma createParticles_react x y color isSuccess w :
  react (createParticles rand x y color isSuccess w) = react w.
Proof. apply pushParticles_spec. Qed.

Lemma createParticles_game x y color isSuccess w :
  exists ps,
    game (createParticles rand x y color isSuccess w) =
      set_particles (particles (game w) ++ ps) (game w) /\
    Forall alive ps.
Proof.
  destruct (pushParticles_spec (if isSuccess then 15 else 8)%nat
              x y color isSuccess w) as [_ [ps [Hg [_ Hf]]]].
  exists ps. split; [exact Hg|].
  eapply Forall_impl; [|exact Hf].
  intros p Hp. unfold alive. rewrite Hp. destruct isSuccess; lia.
Qed.

End Callbacks.

(** ** Popup texts *)

Lemma gameOverText_prefix v s h l :
  startsWith (gameOverText v s h l) "Game Over" = true.
Proof. reflexivity. Qed.

Lemma levelCompleteText_prefix l s n :
  startsWith (levelCompleteText l s n) "Game Over" = false.
Proof. reflexivity. Qed.

(** ** [awardPoints] and [handleGameOver] *)

Lemma awardPoints_score v snap w :
  score (react (awardPoints v snap w)) = score (react w) + 10.
Proof.
  destruct v; cbn; [reflexivity|].
  destruct (newLevel (score (react w) + 10) >? s_level snap); reflexivity.
Qed.

Lemma awardPoints_frame v snap w :
  highScore (react (awardPoints v snap w)) = highScore (react w) /\
  gameStarted (react (awardPoints v snap w)) = gameStarted (react w) /\
  seed (awardPoints v snap w) = seed w /\
  (game (awardPoints v snap w) = game w \/
   game (awardPoints v snap w) = set_gameRunning false (game w)).
Proof.
  destruct v; cbn; [auto|].
  destruct (newLevel (score (react w) + 10) >? s_level snap); cbn; auto.
Qed.

(** [GameCanvas] has no level-up popup: scoring touches the score only. *)
Lemma awardPoints_GameCanvas snap w :
  awardPoints GameCanvas snap w = with_react (setScore (fun p => p + 10)) w.
Proof. reflexivity. Qed.

Lemma awardPoints_levelUp snap w :
  newLevel (score (react w) + 10) > s_level snap ->
  awardPoints Revised snap w =
  {| react :=
       {| score := score (react w) + 10;
          level := newLevel (score (react w) + 10);
          showPopup := true;
          popupText := levelCompleteText (s_level snap)
                         (score (react w) + 10)
                         (newLevel (score (react w) + 10));
          gameStarted := gameStarted (react w);
          highScore := highScore (react w) |};
     game := set_gameRunning false (game w);
     seed := seed w |}.
Proof.
  intros H. unfold awardPoints.
  apply Z.gt_lt, Z.gtb_lt in H. rewrite H. reflexivity.
Qed.

Lemma awardPoints_same_level snap w :
  newLevel (score (react w) + 10) <= s_level snap ->
  awardPoints Revised snap w = with_react (setScore (fun p => p + 10)) w.
Proof.
  intros H. unfold awardPoints.
  destruct (newLevel (score (react w) + 10) >? s_level snap) eqn:E.
  - apply Z.gtb_lt in E. lia.
  - reflexivity.
Qed.

(** After a correct match the session is not over: the popup, if any, is
    the level-up one. *)
Lemma awardPoints_not_ended v snap w :
  session w = Running -> session (awardPoints v snap w) <> Ended.
Proof.
  unfold session. intros H.
  destruct (gameStarted (react w)) eqn:S; [|discriminate].
  destruct (gameRunning (game w)) eqn:R;
    [|cbn in H; destruct (startsWith _ _); discriminate].
  destruct v.
  - cbn. rewrite S, R. discriminate.
  - destruct (Z_gt_le_dec (newLevel (score (react w) + 10)) (s_level snap))
      as [G|G].
    + rewrite awardPoints_levelUp by exact G. cbn. rewrite S. cbn.
      discriminate.
    + rewrite awardPoints_same_level by exact G. cbn. rewrite S, R.
      discriminate.
Qed.

Lemma handleGameOver_spec v snap w :
  handleGameOver v snap w =
  {| react :=
       {| score := score (react w);
          level := level (react w);
          showPopup := true;
          popupText := gameOverText v (s_score snap)
                         (Z.max (s_score snap) (s_highScore snap))
                         (s_level snap);
          gameStarted := gameStarted (react w);
          highScore := Z.max (s_score snap) (s_highScore snap) |};
     game := set_gameRunning false (game w);
     seed := seed w |}.
Proof. reflexivity. Qed.

Lemma handleGameOver_ended v snap w :
  gameStarted (react w) = true -> session (handleGameOver v snap w) = Ended.
Proof.
  intros S. unfold session. rewrite handleGameOver_spec.
  cbn [react game gameStarted gameRunning set_gameRunning popupText].
  rewrite S, gameOverText_prefix. reflexivity.
Qed.

Lemma session_running w :
  session w = Running <->
  gameStarted (react w) = true /\ gameRunning (game w) = true.
Proof.
  unfold session.
  destruct (gameStarted (react w)), (gameRunning (game w)); cbn;
    try destruct (startsWith _ _); split;
    try discriminate; try tauto; intros []; discriminate.
Qed.

(** ** The three outcomes of the obstacle callback *)

Section ObstacleStep.

Variable rand : nat -> Q.
Variables (v : Variant) (snap : Snapshot) (bounceHeight : Q).
Variables (o : Obstacle) (w : World).

(** The gate once moved by the speed of the frame. *)
Let moved : Obstacle := set_ob_y (ob_y o + gameSpeed (game w))%Q o.

Lemma markAndKeep_passed o1 w1 :
  ob_passed o1 = true ->
  markAndKeep o1 w1 = (Qltb (ob_y o1) (canvasHeight + 50)%Q, o1).
Proof. intros P. unfold markAndKeep. rewrite P. reflexivity. Qed.

Lemma markAndKeep_shape o1 w1 :
  snd (markAndKeep o1 w1) = o1 \/
  ob_passed o1 = false /\ snd (markAndKeep o1 w1) = set_ob_passed true o1.
Proof.
  unfold markAndKeep.
  destruct (negb (ob_passed o1) && _) eqn:E; cbn; [right|left; reflexivity].
  apply andb_true_iff in E. destruct E as [E _].
  apply negb_true_iff in E. auto.
Qed.

Lemma obstacleStep_scored :
  collision (ball (game w)) bounceHeight moved = true ->
  ob_passed o = false ->
  ball_colorIndex (ball (game w)) = ob_colorIndex o ->
  0 <= ob_colorIndex o < colorCount (s_level snap) ->
  exists c,
    obstacleStep rand v snap bounceHeight o w =
    Some (Qltb (ob_y moved) (canvasHeight + 50)%Q,
          set_ob_passed true moved,
          createParticles rand (ob_x moved + ob_width moved / 2)%Q
            (ob_y moved + ob_height moved / 2)%Q (value c) true
            (awardPoints v snap w)).
Proof.
  intros C P M I.
  destruct (index_in_range (getCurrentLevelColors (s_level snap))
              (ob_colorIndex o) I) as [c Hc].
  exists c. unfold obstacleStep. fold moved. rewrite C.
  replace (ob_passed moved) with false by (symmetry; exact P).
  replace (ob_colorIndex moved) with (ob_colorIndex o) by reflexivity.
  rewrite M, Z.eqb_refl, Hc. cbn [negb andb].
  rewrite markAndKeep_passed by reflexivity. reflexivity.
Qed.

Lemma obstacleStep_failed :
  collision (ball (game w)) bounceHeight moved = true ->
  ob_passed o = false ->
  ball_colorIndex (ball (game w)) <> ob_colorIndex o ->
  obstacleStep rand v snap bounceHeight o w =
  Some (false, moved,
        handleGameOver v snap
          (createParticles rand (ball_x (ball (game w)))
             (ball_y (ball (game w))) "#ff4444" false w)).
Proof.
  intros C P M. unfold obstacleStep. fold moved. rewrite C.
  replace (ob_passed moved) with false by (symmetry; exact P).
  replace (ob_colorIndex moved) with (ob_colorIndex o) by reflexivity.
  apply Z.eqb_neq in M. rewrite M. reflexivity.
Qed.

Lemma obstacleStep_idle :
  collision (ball (game w)) bounceHeight moved && negb (ob_passed o) = false ->
  obstacleStep rand v snap bounceHeight o w =
  Some (fst (markAndKeep moved w), snd (markAndKeep moved w), w).
Proof.
  intros C. unfold obstacleStep. fold moved.
  replace (ob_passed moved) with (ob_passed o) by reflexivity.
  rewrite C. destruct (markAndKeep moved w). reflexivity.
Qed.

(** Every run of the callback that does not throw is one of the three. *)
Lemma obstacleStep_inv keep o' w' :
  obstacleStep rand v snap bounceHeight o w = Some (keep, o', w') ->
  (ob_passed o = false /\
   ball_colorIndex (ball (game w)) = ob_colorIndex o /\
   collision (ball (game w)) bounceHeight moved = true /\
   o' = set_ob_passed true moved /\
   exists c,
     index (getCurrentLevelColors (s_level snap)) (ob_colorIndex o) = Some c /\
     w' = createParticles rand (ob_x moved + ob_width moved / 2)%Q
            (ob_y moved + ob_height moved / 2)%Q (value c) true
            (awardPoints v snap w)) \/
  (ob_passed o = false /\
   ball_colorIndex (ball (game w)) <> ob_colorIndex o /\
   collision (ball (game w)) bounceHeight moved = true /\
   keep = false /\ o' = moved /\
   w' = handleGameOver v snap
          (createParticles rand (ball_x (ball (game w)))
             (ball_y (ball (game w))) "#ff4444" false w)) \/
  (collision (ball (game w)) bounceHeight moved && negb (ob_passed o) = false /\
   o' = snd (markAndKeep moved w) /\ w' = w).
Proof.
  intros H.
  destruct (collision (ball (game w)) bounceHeight moved
            && negb (ob_passed o)) eqn:C.
  - apply andb_true_iff in C. destruct C as [C P].
    apply negb_true_iff in P.
    destruct (Z.eq_dec (ball_colorIndex (ball (game w))) (ob_colorIndex o))
      as [M|M].
    + left. unfold obstacleStep in H. fold moved in H. rewrite C in H.
      replace (ob_passed moved) with false in H by (symmetry; exact P).
      replace (ob_colorIndex moved) with (ob_colorIndex o) in H
        by reflexivity.
      rewrite M, Z.eqb_refl in H. cbn [negb andb] in H.
      destruct (index (getCurrentLevelColors (s_level snap))
                  (ob_colorIndex o)) as [c|] eqn:Hc; [|discriminate].
      rewrite markAndKeep_passed in H by reflexivity.
      injection H as <- <- <-. repeat split; auto. exists c. auto.
    + right. left. rewrite obstacleStep_failed in H by assumption.
      injection H as <- <- <-. repeat split; auto.
  - right. right. rewrite obstacleStep_idle in H by assumption.
    injection H as <- <- <-. repeat split; auto.
Qed.

End ObstacleStep.

(** ** Invariants of the obstacle filter *)

Section Filter.

Variable rand : nat -> Q.
Variables (v : Variant) (snap : Snapshot) (bounceHeight : Q).

(** A property of the store kept by every run of the callback is kept by
    the filter. *)
Lemma filterObstacles_invariant (P : World -> Prop) :
  (forall o w keep o' w',
      P w -> obstacleStep rand v snap bounceHeight o w = Some (keep, o', w') ->
      P w') ->
  forall os w kept w',
    P w -> filterObstacles rand v snap bounceHeight os w = Some (kept, w') ->
    P w'.
Proof.
  intros Hstep os. induction os as [|o rest IH]; intros w kept w' HP H.
  - cbn in H. injection H as <- <-. exact HP.
  - cbn [filterObstacles] in H.
    destruct (obstacleStep rand v snap bounceHeight o w)
      as [[[keep o'] w1]|] eqn:E; [|discriminate].
    destruct (filterObstacles rand v snap bounceHeight rest w1)
      as [[kept1 w2]|] eqn:F; [|discriminate].
    injection H as <- <-.
    eapply IH; [|exact F]. eapply Hstep; eassumption.
Qed.

(** The gates that the filter returns: each comes from a gate of the
    list, through one run of the callback that kept it. *)
Lemma filterObstacles_kept os w kept w' :
  filterObstacles rand v snap bounceHeight os w = Some (kept, w') ->
  forall o', In o' kept ->
    exists o w1 w2, In o os /\
      obstacleStep rand v snap bounceHeight o w1 = Some (true, o', w2).
Proof.
  revert w kept w'. induction os as [|o rest IH]; intros w kept w' H o' Hin.
  - cbn in H. injection H as <- <-. destruct Hin.
  - cbn [filterObstacles] in H.
    destruct (obstacleStep rand v snap bounceHeight o w)
      as [[[keep o1] w1]|] eqn:E; [|discriminate].
    destruct (filterObstacles rand v snap bounceHeight rest w1)
      as [[kept1 w2]|] eqn:F; [|discriminate].
    injection H as <- <-.
    assert (Hrest : In o' kept1 ->
              exists o0 w3 w4, In o0 (o :: rest) /\
                obstacleStep rand v snap bounceHeight o0 w3
                = Some (true, o', w4)).
    { intros Hk. destruct (IH _ _ _ F _ Hk) as [o0 [w3 [w4 [Hi Hs]]]].
      exists o0, w3, w4. split; [right; exact Hi | exact Hs]. }
    destruct keep; [|auto].
    destruct Hin as [<-|Hk]; [|auto].
    exists o, w, w1. split; [left; reflexivity | exact E].
Qed.

End Filter.

(** ** The other parts of a frame *)

Lemma generateObstacles_react rand v snap w :
  react (generateObstacles rand v snap w) = react w.
Proof.
  unfold generateObstacles.
  destruct (_ >=? _); [|reflexivity].
  destruct v; reflexivity.
Qed.

Lemma drawObstacle_passed v colors o o' :
  drawObstacle v colors o = Some o' ->
  ob_passed o' = ob_passed o /\ ob_colorIndex o' = ob_colorIndex o /\
  ob_y o' = ob_y o /\
  exists c, index colors (ob_colorIndex o) = Some c.
Proof.
  unfold drawObstacle. destruct v; cbn;
    destruct (index colors (ob_colorIndex o)) eqn:E; try discriminate;
    intros H; injection H as <-; cbn; eauto.
Qed.

Lemma draw_frame v colors w w' :
  draw v colors w = Some w' ->
  react w' = react w /\ seed w' = seed w /\
  exists os, game w' = set_obstacles os (game w) /\
             drawObstacles v colors (obstacles (game w)) = Some os.
Proof.
  unfold draw.
  destruct (drawObstacles v colors (obstacles (game w))) as [os|];
    [|discriminate].
  cbn. destruct (index colors _); [|discriminate].
  intros H. injection H as <-. cbn. eauto.
Qed.

Lemma beginFrame_react v loop snap w :
  react (beginFrame v loop snap w) =
  match loop with
  | MainLoop => react (updateLevel snap w)
  | PopupLoop => react w
  end.
Proof.
  unfold beginFrame, updateLevel. destruct loop; [|reflexivity].
  destruct (negb _); reflexivity.
Qed.

Lemma beginFrame_game v loop snap w :
  obstacles (game (beginFrame v loop snap w)) = obstacles (game w) /\
  particles (game (beginFrame v loop snap w)) = particles (game w) /\
  obstacleTimer (game (beginFrame v loop snap w)) = obstacleTimer (game w) /\
  gameRunning (game (beginFrame v loop snap w)) = gameRunning (game w) /\
  ball_colorIndex (ball (game (beginFrame v loop snap w))) =
    ball_colorIndex (ball (game w)) /\
  seed (beginFrame v loop snap w) = seed w.
Proof.
  unfold beginFrame, updateLevel. destruct loop; [destruct (negb _)|];
    cbn; auto 10.
Qed.

Lemma updateLevel_level w :
  level (react (updateLevel (render w) w)) = newLevel (score (react w)).
Proof.
  unfold updateLevel. cbn [render s_score s_level].
  destruct (newLevel (score (react w)) =? level (react w)) eqn:E; cbn.
  - apply Z.eqb_eq in E. auto.
  - reflexivity.
Qed.

(** A frame of a running session, cut at the two filters. *)
Lemma animate_running rand Math_sin v loop snap w w' :
  gameRunning (game w) = true ->
  animate rand Math_sin v loop snap w = Some w' ->
  exists kept w2,
    filterObstacles rand v snap
      (Math_sin (ball_bounceOffset (ball (game (beginFrame v loop snap w))))
       * 5)%Q
      (obstacles (game (generateObstacles rand v snap
                          (beginFrame v loop snap w))))
      (generateObstacles rand v snap (beginFrame v loop snap w))
    = Some (kept, w2) /\
    draw v (getCurrentLevelColors (s_level snap))
      (updateParticles (with_game (set_obstacles kept) w2)) = Some w'.
Proof.
  intros R H. unfold animate in H. rewrite R in H. cbn [negb] in H.
  match type of H with
  | match ?f with _ => _ end = _ => destruct f as [[kept w2]|] eqn:F
  end; [|discriminate].
  exists kept, w2. split; [reflexivity | exact H].
Qed.

Lemma animate_stopped rand Math_sin v loop snap w :
  gameRunning (game w) = false ->
  animate rand Math_sin v loop snap w = Some w.
Proof. intros R. unfold animate. rewrite R. reflexivity. Qed.

(** What one run of the callback does to the React state. *)
Lemma obstacleStep_react rand v snap bh o w keep o' w' :
  obstacleStep rand v snap bh o w = Some (keep, o', w') ->
  (ob_passed o = false /\ ob_passed o' = true /\
   react w' = react (awardPoints v snap w)) \/
  (keep = false /\ react w' = react (handleGameOver v snap w) /\
   gameRunning (game w') = false) \/
  react w' = react w.
Proof.
  intros H. apply obstacleStep_inv in H. cbv zeta in H.
  destruct H as [(P & _ & _ & -> & c & _ & ->)
                | [(P & _ & _ & -> & _ & ->) | (_ & _ & ->)]].
  - left. rewrite createParticles_react. auto.
  - right. left. rewrite !handleGameOver_spec, createParticles_react. auto.
  - right. right. reflexivity.
Qed.

Lemma level_after_frame_GameCanvas rand Math_sin w w' :
  gameRunning (game w) = true ->
  animate rand Math_sin GameCanvas MainLoop (render w) w = Some w' ->
  level (react w') = newLevel (score (react w)).
Proof.
  intros R H.
  destruct (animate_running _ _ _ _ _ _ _ R H) as [kept [w2 [F D]]].
  apply draw_frame in D. destruct D as [-> _]. cbn [updateParticles
    with_game react].
  eapply (filterObstacles_invariant rand GameCanvas (render w) _
            (fun x => level (react x) = newLevel (score (react w))));
    [| |exact F].
  - intros o x keep o' x' HP S. apply obstacleStep_react in S.
    destruct S as [(_ & _ & ->) | [(_ & -> & _) | ->]]; exact HP.
  - rewrite generateObstacles_react, beginFrame_react.
    apply updateLevel_level.
Qed.

Lemma level_after_frame_Revised rand Math_sin w w' :
  gameRunning (game w) = true ->
  animate rand Math_sin Revised MainLoop (render w) w = Some w' ->
  level (react w') = newLevel (score (react w)) \/
  level (react w') = newLevel (score (react w')).
Proof.
  intros R H.
  destruct (animate_running _ _ _ _ _ _ _ R H) as [kept [w2 [F D]]].
  apply draw_frame in D. destruct D as [-> _]. cbn [updateParticles
    with_game react].
  assert (I : level (react w2) = newLevel (score (react w)) \/
              level (react w2) = newLevel (score (react w2)) /\
              level (react w2) > level (react w)); [|tauto].
  eapply (filterObstacles_invariant rand Revised (render w) _
            (fun x => level (react x) = newLevel (score (react w)) \/
                      level (react x) = newLevel (score (react x)) /\
                      level (react x) > level (react w)));
    [| |exact F].
  - intros o x keep o' x' HP S. apply obstacleStep_react in S.
    destruct S as [(_ & _ & ->) | [(_ & -> & _) | ->]]; [| exact HP ..].
    destruct (Z_gt_le_dec (newLevel (score (react x) + 10))
                (s_level (render w))) as [G|G].
    + rewrite awardPoints_levelUp by exact G. cbn. right. auto.
    + rewrite awardPoints_same_level by exact G. cbn.
      destruct HP as [HP|[HP1 HP2]]; [left; exact HP|].
      cbn in G.
      assert (newLevel (score (react x)) <= newLevel (score (react x) + 10))
        by (apply newLevel_mono; lia).
      lia.
  - left. rewrite generateObstacles_react, beginFrame_react.
    apply updateLevel_level.
Qed.

(** ** The claims *)

(** C1.  The level derived from the score [s] is
    [min(floor(s/200)+1, 5)]: it never exceeds 5, is at least 1 for a
    score that is not negative, and does not decrease when the score
    grows (scores 0, 250 and 650 give levels 1, 2 and 4).  The main loop
    stores this level of the score of the render; in [Revised] a level-up
    in the same frame stores the level of the new score instead. *)
Theorem derived_level_of_score :
  (forall s : Z,
      newLevel s = Z.min (s / 200 + 1) 5 /\
      newLevel s <= 5 /\
      (0 <= s -> 1 <= newLevel s) /\
      (forall t, s <= t -> newLevel s <= newLevel t)) /\
  (newLevel 0 = 1 /\ newLevel 250 = 2 /\ newLevel 650 = 4) /\
  (forall w, level (react (updateLevel (render w) w))
             = newLevel (score (react w))) /\
  (forall rand Math_sin w w',
      gameRunning (game w) = true ->
      animate rand Math_sin GameCanvas MainLoop (render w) w = Some w' ->
      level (react w') = newLevel (score (react w))) /\
  (forall rand Math_sin w w',
      gameRunning (game w) = true ->
      animate rand Math_sin Revised MainLoop (render w) w = Some w' ->
      level (react w') = newLevel (score (react w)) \/
      level (react w') = newLevel (score (react w'))).
Proof.
  split; [|split; [|split; [|split]]].
  - intros s. split; [apply newLevel_div|].
    split; [rewrite newLevel_div; lia|].
    split; [intros Hs; apply newLevel_range, Hs|].
    intros t. apply newLevel_mono.
  - repeat split; reflexivity.
  - apply updateLevel_level.
  - apply level_after_frame_GameCanvas.
  - apply level_after_frame_Revised.
Qed.

Lemma derived_level_of_score_witness :
  newLevel 250 = Z.min (250 / 200 + 1) 5 /\ 1 <= newLevel 250 /\
  newLevel 250 <= newLevel 650.
Proof.
  destruct derived_level_of_score as [H _].
  destruct (H 250) as [H1 [_ [H2 H3]]].
  split; [exact H1|]. split; [apply H2; lia | apply H3; lia].
Defined.

(** C2.  For a level [L >= 1] the number of colours in play,
    [getCurrentLevelColors(L).length], is [min(L+1, 5)]: it is at least 2,
    at most 5, and does not decrease when the level grows. *)
Theorem active_color_count (L : Z) :
  1 <= L ->
  colorCount L = Z.min (L + 1) 5 /\
  2 <= colorCount L <= 5 /\
  (forall L', L <= L' -> colorCount L <= colorCount L').
Proof.
  intros HL. rewrite colorCount_level by lia.
  split; [reflexivity|]. split; [lia|].
  intros L' HL'. rewrite colorCount_level by lia. lia.
Qed.

Lemma active_color_count_witness :
  colorCount 1 = 2 /\ colorCount 2 = 3 /\ colorCount 4 = 5.
Proof.
  destruct (active_color_count 1 ltac:(lia)) as [H1 _].
  destruct (active_color_count 2 ltac:(lia)) as [H2 _].
  destruct (active_color_count 4 ltac:(lia)) as [H4 _].
  repeat split; assumption.
Defined.

(** C3.  While the session is running, [changeColor] takes the colour
    index [i >= 0] of the ball to [(i + 1) mod n], where [n] is the number
    of colours of the level, and it does nothing when the session is not
    running; from an index in [[0, n)], [n] calls bring the index back. *)
Theorem changeColor_cycle (snap : Snapshot) (w : World) :
  1 <= s_level snap ->
  0 <= ball_colorIndex (ball (game w)) ->
  let n := colorCount (s_level snap) in
  let i := ball_colorIndex (ball (game w)) in
  (gameRunning (game w) = false -> changeColor snap w = w) /\
  (gameRunning (game w) = true ->
   ball_colorIndex (ball (game (changeColor snap w))) = (i + 1) mod n /\
   (i < n ->
    ball_colorIndex
      (ball (game (Nat.iter (Z.to_nat n) (changeColor snap) w))) = i)).
Proof.
  intros HL Hi n i.
  assert (Hn : 2 <= n) by (unfold n; rewrite colorCount_level by lia; lia).
  split; [intros R; unfold changeColor; rewrite R; reflexivity|].
  intros R. split.
  - rewrite changeColor_index by exact R.
    apply Z.rem_mod_nonneg; lia.
  - intros Hlt.
    destruct (changeColor_iter snap w (Z.to_nat n) R) as [_ E];
      [fold i n; lia|].
    rewrite E. fold i n. rewrite Z2Nat.id by lia.
    rewrite <- (Z.mul_1_l n) at 1.
    rewrite Z.mod_add by lia. apply Z.mod_small. lia.
Qed.

Lemma changeColor_cycle_witness :
  let snap := {| s_score := 250; s_level := 2; s_highScore := 0;
                 s_popupText := "" |} in
  let w := with_game (fun g => set_ball (set_colorIndex 1 (ball g)) g)
             sampleWorld in
  (1 <= s_level snap /\ 0 <= ball_colorIndex (ball (game w)) /\
   gameRunning (game w) = true /\ ball_colorIndex (ball (game w)) < 3) /\
  ball_colorIndex (ball (game (changeColor snap w))) = 2 /\
  ball_colorIndex (ball (game (changeColor snap (changeColor snap w)))) = 0 /\
  ball_colorIndex
    (ball (game (Nat.iter 3 (changeColor snap) w))) = 1.
Proof.
  intros snap w.
  assert (HL : 1 <= s_level snap) by (cbn; lia).
  assert (Hi : 0 <= ball_colorIndex (ball (game w))) by (cbn; lia).
  assert (R : gameRunning (game w) = true) by reflexivity.
  assert (Hlt : ball_colorIndex (ball (game w)) < 3) by (cbn; lia).
  split; [auto|].
  destruct (changeColor_cycle snap w HL Hi) as [_ H].
  destruct (H R) as [H1 H3].
  split; [exact H1|].
  split; [reflexivity|].
  exact (H3 Hlt).
Defined.

Lemma createParticles_session rand x y color isSuccess w :
  session (createParticles rand x y color isSuccess w) = session w.
Proof.
  unfold session. rewrite createParticles_react.
  destruct (createParticles_game rand x y color isSuccess w) as [ps [-> _]].
  reflexivity.
Qed.

Lemma collision_above (b : Ball) (bh : Q) (o : Obstacle) :
  collision b bh o = true ->
  (ob_y o < ball_y b + ball_radius b + bh)%Q.
Proof.
  unfold collision. intros H.
  apply andb_true_iff in H. destruct H as [H _].
  apply andb_true_iff in H. destruct H as [_ H].
  apply Qltb_lt in H. exact H.
Qed.

(** C4.  In a running session, when the callback of the obstacle filter
    finds the hit-box of the ball over a gate not yet passed whose colour
    index is that of the ball (an index of the colours of the level), the
    score grows by exactly 10, the gate is marked passed, and the session
    is not over: it goes on running in [GameCanvas], and in [Revised] it
    goes on running or pauses on the level-up popup.  The gate stays in
    the collection as long as the bottom of the hit-box is on the canvas
    side of the removal line. *)
Theorem matching_collision_scores (rand : nat -> Q) (v : Variant)
    (snap : Snapshot) (bounceHeight : Q) (o : Obstacle) (w : World) :
  session w = Running ->
  ob_passed o = false ->
  collision (ball (game w)) bounceHeight
    (set_ob_y (ob_y o + gameSpeed (game w))%Q o) = true ->
  ball_colorIndex (ball (game w)) = ob_colorIndex o ->
  0 <= ob_colorIndex o < colorCount (s_level snap) ->
  exists keep o' w',
    obstacleStep rand v snap bounceHeight o w = Some (keep, o', w') /\
    score (react w') = score (react w) + 10 /\
    ob_passed o' = true /\
    session w' <> Ended /\
    (v = GameCanvas -> session w' = Running) /\
    ((ball_y (ball (game w)) + ball_radius (ball (game w)) + bounceHeight
      <= canvasHeight + 50)%Q -> keep = true).
Proof.
  intros S P C M I.
  destruct (obstacleStep_scored rand v snap bounceHeight o w C P M I)
    as [c E].
  cbv zeta in E.
  eexists _, _, _. split; [exact E|].
  rewrite createParticles_react, awardPoints_score, createParticles_session.
  split; [reflexivity|]. split; [reflexivity|].
  split; [apply awardPoints_not_ended, S|].
  split.
  - intros ->. exact S.
  - intros B. apply Qltb_lt.
    eapply Qlt_le_trans; [|exact B].
    apply (collision_above _ _ _ C).
Qed.

Lemma matching_collision_scores_witness :
  let snap := {| s_score := 250; s_level := 2; s_highScore := 0;
                 s_popupText := "" |} in
  let w := with_react (setLevel 2)
             (with_react (setScore (fun _ => 250))
                (with_game (fun g => set_ball (set_colorIndex 2 (ball g)) g)
                   sampleWorld)) in
  let o := sampleGate 399 2 in
  (session w = Running /\ ob_passed o = false /\
   collision (ball (game w)) 0
     (set_ob_y (ob_y o + gameSpeed (game w))%Q o) = true /\
   ball_colorIndex (ball (game w)) = ob_colorIndex o /\
   0 <= ob_colorIndex o < colorCount (s_level snap)) /\
  exists keep o' w',
    obstacleStep sampleRand Revised snap 0 o w = Some (keep, o', w') /\
    score (react w') = 260 /\ ob_passed o' = true /\ session w' <> Ended /\
    keep = true.
Proof.
  intros snap w o.
  assert (S : session w = Running) by (vm_compute; reflexivity).
  assert (P : ob_passed o = false) by reflexivity.
  assert (C : collision (ball (game w)) 0
                (set_ob_y (ob_y o + gameSpeed (game w))%Q o) = true)
    by (vm_compute; reflexivity).
  assert (M : ball_colorIndex (ball (game w)) = ob_colorIndex o)
    by reflexivity.
  assert (I : 0 <= ob_colorIndex o < colorCount (s_level snap))
    by (split; vm_compute; [discriminate | reflexivity]).
  split; [auto 10|].
  destruct (matching_collision_scores sampleRand Revised snap 0 o w
              S P C M I)
    as [keep [o' [w' [E [Hs [Hp [Hn [_ Hk]]]]]]]].
  exists keep, o', w'. repeat split; auto.
  apply Hk. vm_compute. discriminate.
Defined.

(** C5.  In a running session, when the callback of the obstacle filter
    finds the hit-box of the ball over a gate not yet passed whose colour
    index is not that of the ball, the session is over ([gameRunning] is
    false and the popup is the game-over one), the score is the same as
    before, and the callback returns false: the filter goes on with the
    other gates and drops this one. *)
Theorem mismatched_collision_ends (rand : nat -> Q) (v : Variant)
    (snap : Snapshot) (bounceHeight : Q) (o : Obstacle) (w : World) :
  session w = Running ->
  ob_passed o = false ->
  collision (ball (game w)) bounceHeight
    (set_ob_y (ob_y o + gameSpeed (game w))%Q o) = true ->
  ball_colorIndex (ball (game w)) <> ob_colorIndex o ->
  exists o' w',
    obstacleStep rand v snap bounceHeight o w = Some (false, o', w') /\
    score (react w') = score (react w) /\
    session w' = Ended /\
    gameRunning (game w') = false /\
    showPopup (react w') = true /\
    (forall rest,
        filterObstacles rand v snap bounceHeight (o :: rest) w =
        filterObstacles rand v snap bounceHeight rest w').
Proof.
  intros S P C M.
  pose proof (obstacleStep_failed rand v snap bounceHeight o w C P M) as E.
  pose proof (createParticles_react rand (ball_x (ball (game w)))
                (ball_y (ball (game w))) "#ff4444" false w) as Hr.
  revert E Hr.
  generalize (createParticles rand (ball_x (ball (game w)))
                (ball_y (ball (game w))) "#ff4444" false w).
  intros cp E Hr.
  apply session_running in S. destruct S as [St _].
  exists (set_ob_y (ob_y o + gameSpeed (game w))%Q o),
         (handleGameOver v snap cp).
  split; [exact E|].
  split; [rewrite handleGameOver_spec; cbn; now rewrite Hr|].
  split; [apply handleGameOver_ended; now rewrite Hr|].
  split; [reflexivity|]. split; [reflexivity|].
  intros rest.
  change (filterObstacles rand v snap bounceHeight (o :: rest) w) with
    (r <- obstacleStep rand v snap bounceHeight o w ;;
     let '(keep, o', w) := r in
     r' <- filterObstacles rand v snap bounceHeight rest w ;;
     let '(kept, w) := r' in
     Some (if keep then o' :: kept else kept, w)).
  rewrite E.
  destruct (filterObstacles rand v snap bounceHeight rest
              (handleGameOver v snap cp)) as [[kept w2]|]; reflexivity.
Qed.


Lemma mismatched_collision_ends_witness :
  let w := with_react (setScore (fun _ => 30)) sampleWorld in
  let o := sampleGate 399 1 in
  (session w = Running /\ ob_passed o = false /\
   collision (ball (game w)) 0
     (set_ob_y (ob_y o + gameSpeed (game w))%Q o) = true /\
   ball_colorIndex (ball (game w)) <> ob_colorIndex o) /\
  exists o' w',
    obstacleStep sampleRand GameCanvas (render w) 0 o w
    = Some (false, o', w') /\
    score (react w') = 30 /\ session w' = Ended /\
    filterObstacles sampleRand GameCanvas (render w) 0 [o] w = Some ([], w').
Proof.
  intros w o.
  assert (S : session w = Running) by (vm_compute; reflexivity).
  assert (P : ob_passed o = false) by (vm_compute; reflexivity).
  assert (C : collision (ball (game w)) 0
                (set_ob_y (ob_y o + gameSpeed (game w))%Q o) = true)
    by (vm_compute; reflexivity).
  assert (M : ball_colorIndex (ball (game w)) <> ob_colorIndex o)
    by (vm_compute; discriminate).
  split; [auto|].
  destruct (mismatched_collision_ends sampleRand GameCanvas (render w) 0 o w
              S P C M) as [o' [w' [E [Hs [He [_ [_ Hf]]]]]]].
  exists o', w'. split; [exact E|]. split; [exact Hs|].
  split; [exact He|]. exact (Hf []).
Defined.

(** ** The life of a gate *)

Lemma markAndKeep_flag o1 w1 :
  (ob_passed o1 = true -> ob_passed (snd (markAndKeep o1 w1)) = true).
Proof.
  intros P. rewrite markAndKeep_passed by exact P. exact P.
Qed.

(** The flag before and after one run of the callback, and the points
    that the run adds to the score. *)
Lemma obstacleStep_flag_points rand v snap bh o w keep o' w' :
  obstacleStep rand v snap bh o w = Some (keep, o', w') ->
  (ob_passed o' = true /\ score (react w') - score (react w) = 0) \/
  (ob_passed o = false /\ ob_passed o' = true /\
   score (react w') - score (react w) = 10) \/
  (ob_passed o = false /\ ob_passed o' = false /\
   score (react w') - score (react w) = 0).
Proof.
  intros H. apply obstacleStep_inv in H.
  destruct H as [(P & _ & _ & -> & c & _ & ->)
                | [(P & _ & _ & _ & -> & ->) | (C & -> & ->)]].
  - right. left. rewrite createParticles_react, awardPoints_score.
    repeat split; [exact P | lia].
  - right. right.
    pose proof (createParticles_react rand (ball_x (ball (game w)))
                  (ball_y (ball (game w))) "#ff4444" false w) as Hr.
    revert Hr. generalize (createParticles rand (ball_x (ball (game w)))
                  (ball_y (ball (game w))) "#ff4444" false w).
    intros cp Hr. rewrite handleGameOver_spec. cbn. rewrite Hr.
    repeat split; try exact P; lia.
  - set (moved := set_ob_y (ob_y o + gameSpeed (game w))%Q o).
    destruct (markAndKeep_shape moved w) as [E|[P E]]; rewrite E.
    + destruct (ob_passed o) eqn:P.
      * left. split; [exact P | lia].
      * right. right. repeat split; [exact P | lia].
    + left. split; [reflexivity | lia].
Qed.

Lemma gateHistory_cons rand v f rest o :
  gateHistory rand v (f :: rest) o =
  match obstacleStep rand v (f_snap f) (f_bounceHeight f) o (f_world f) with
  | None => []
  | Some (keep, o', w') =>
      (ob_passed o', score (react w') - score (react (f_world f))) ::
      (if keep then
         match drawObstacle v
                 (getCurrentLevelColors (s_level (f_snap f))) o' with
         | Some o'' => gateHistory rand v rest o''
         | None => []
         end
       else [])
  end.
Proof. reflexivity. Qed.

(** Once the flag is set, the gate earns nothing and the flag stays. *)
Lemma gateHistory_passed rand v frames :
  forall o, ob_passed o = true ->
    exists m, gateHistory rand v frames o = repeat (true, 0) m.
Proof.
  induction frames as [|f rest IH]; intros o P.
  - exists 0%nat. reflexivity.
  - rewrite gateHistory_cons.
    destruct (obstacleStep rand v (f_snap f) (f_bounceHeight f) o (f_world f))
      as [[[keep o'] w']|] eqn:E; [|exists 0%nat; reflexivity].
    apply obstacleStep_flag_points in E.
    destruct E as [[P' Z0] | [[Q _] | [Q _]]]; try congruence.
    rewrite P', Z0.
    destruct keep; [|exists 1%nat; reflexivity].
    destruct (drawObstacle v _ o') as [o''|] eqn:D;
      [|exists 1%nat; reflexivity].
    apply drawObstacle_passed in D. destruct D as [D _].
    destruct (IH o'') as [m Hm]; [congruence|].
    exists (S m). rewrite Hm. reflexivity.
Qed.

(** The history of a gate: frames with the flag down and no points, then
    the frame that sets the flag, with 0 or 10 points, then frames with the
    flag up and no points. *)
Lemma gateHistory_shape rand v frames :
  forall o, exists n t,
    gateHistory rand v frames o = repeat (false, 0) n ++ t /\
    (t = [] \/
     exists pts m, t = (true, pts) :: repeat (true, 0) m /\
                   (pts = 0 \/ pts = 10 /\ ob_passed o = false)) /\
    (ob_passed o = true -> n = 0%nat).
Proof.
  induction frames as [|f rest IH]; intros o.
  - exists 0%nat, []. repeat split; auto.
  - rewrite gateHistory_cons.
    destruct (obstacleStep rand v (f_snap f) (f_bounceHeight f) o (f_world f))
      as [[[keep o'] w']|] eqn:E;
      [|exists 0%nat, []; repeat split; auto].
    apply obstacleStep_flag_points in E.
    assert (Tail : ob_passed o' = true ->
              exists m,
                (if keep then
                   match drawObstacle v
                           (getCurrentLevelColors (s_level (f_snap f))) o'
                   with
                   | Some o'' => gateHistory rand v rest o''
                   | None => []
                   end
                 else []) = repeat (true, 0) m).
    { intros P'. destruct keep; [|exists 0%nat; reflexivity].
      destruct (drawObstacle v _ o') as [o''|] eqn:D;
        [|exists 0%nat; reflexivity].
      apply drawObstacle_passed in D. destruct D as [D _].
      apply gateHistory_passed. congruence. }
    destruct E as [[P' Z0] | [[Q [P' Z10]] | [Q [P' Z0]]]].
    + destruct (Tail P') as [m Hm]. rewrite P', Z0, Hm.
      exists 0%nat, ((true, 0) :: repeat (true, 0) m).
      split; [reflexivity|]. split; [|reflexivity].
      right. exists 0, m. auto.
    + destruct (Tail P') as [m Hm]. rewrite P', Z10, Hm.
      exists 0%nat, ((true, 10) :: repeat (true, 0) m).
      split; [reflexivity|]. split; [|reflexivity].
      right. exists 10, m. auto.
    + rewrite P', Z0.
      destruct keep;
        [|exists 1%nat, []; repeat split; auto; congruence].
      destruct (drawObstacle v _ o') as [o''|] eqn:D;
        [|exists 1%nat, []; repeat split; auto; congruence].
      apply drawObstacle_passed in D. destruct D as [D _].
      destruct (IH o'') as [n [t [Hh [Ht _]]]].
      exists (S n), t. rewrite Hh. split; [reflexivity|].
      split; [|congruence].
      destruct Ht as [->|[pts [m [-> Hp]]]]; [left; reflexivity|].
      right. exists pts, m. split; [reflexivity|].
      destruct Hp as [->|[-> _]]; auto.
Qed.

Lemma sum_repeat_zero (b : bool) (n : nat) :
  fold_right Z.add 0 (map snd (repeat (b, 0) n)) = 0.
Proof. induction n as [|n IH]; cbn; [reflexivity | exact IH]. Qed.

(** C6.  The [passed] flag of a gate never goes back from true to false,
    and a run of the callback adds points (10) only when it takes the flag
    from false to true; the drawing code leaves the flag alone.  Over the
    life of a gate the flag therefore rises at most once, points come only
    in the frame where it rises, and the gate adds 0 or 10 to the score,
    0 if it starts with the flag up. *)
Theorem gate_scored_once (rand : nat -> Q) (v : Variant) :
  (forall snap bh o w keep o' w',
      obstacleStep rand v snap bh o w = Some (keep, o', w') ->
      (ob_passed o = true -> ob_passed o' = true) /\
      (score (react w') = score (react w) \/
       score (react w') = score (react w) + 10 /\
       ob_passed o = false /\ ob_passed o' = true)) /\
  (forall colors o o',
      drawObstacle v colors o = Some o' -> ob_passed o' = ob_passed o) /\
  (forall frames o,
      let h := gateHistory rand v frames o in
      (exists n t,
          h = repeat (false, 0) n ++ t /\
          (t = [] \/
           exists pts m, t = (true, pts) :: repeat (true, 0) m /\
                         (pts = 0 \/ pts = 10))) /\
      (fold_right Z.add 0 (map snd h) = 0 \/
       fold_right Z.add 0 (map snd h) = 10) /\
      (ob_passed o = true -> fold_right Z.add 0 (map snd h) = 0)).
Proof.
  split; [|split].
  - intros snap bh o w keep o' w' H.
    apply obstacleStep_flag_points in H.
    destruct H as [[P' Z0] | [[Q [P' Z10]] | [Q [P' Z0]]]].
    + split; [auto | left; lia].
    + split; [auto | right; repeat split; auto; lia].
    + split; [congruence | left; lia].
  - intros colors o o' D. apply drawObstacle_passed in D. tauto.
  - intros frames o h.
    destruct (gateHistory_shape rand v frames o) as [n [t [Hh [Ht Hn]]]].
    fold h in Hh.
    assert (Sum : fold_right Z.add 0 (map snd h)
                  = fold_right Z.add 0 (map snd t)).
    { rewrite Hh, map_app, fold_right_app.
      generalize (fold_right Z.add 0 (map snd t)). intros z.
      clear. induction n as [|n IH]; cbn; [reflexivity | exact IH]. }
    split; [|split].
    + exists n, t. split; [exact Hh|].
      destruct Ht as [->|[pts [m [-> Hp]]]]; [left; reflexivity|].
      right. exists pts, m. split; [reflexivity | tauto].
    + rewrite Sum.
      destruct Ht as [->|[pts [m [-> Hp]]]]; [left; reflexivity|].
      cbn [map snd fold_right]. rewrite sum_repeat_zero.
      destruct Hp as [->|[-> _]]; [left | right]; reflexivity.
    + intros P. rewrite Sum.
      destruct Ht as [->|[pts [m [-> Hp]]]]; [reflexivity|].
      cbn [map snd fold_right]. rewrite sum_repeat_zero.
      destruct Hp as [->|[_ Q]]; [reflexivity | congruence].
Qed.

Lemma gate_scored_once_witness :
  let f := {| f_snap := sampleSnapshot; f_bounceHeight := 0;
              f_world := sampleWorld |} in
  let h := gateHistory sampleRand Revised [f; f; f; f] (sampleGate 395 0) in
  h = [(false, 0); (false, 0); (true, 10); (true, 0)] /\
  (fold_right Z.add 0 (map snd h) = 0 \/
   fold_right Z.add 0 (map snd h) = 10).
Proof.
  intros f h. split; [vm_compute; reflexivity|].
  destruct (gate_scored_once sampleRand Revised) as [_ [_ H]].
  destruct (H [f; f; f; f] (sampleGate 395 0)) as [_ [S _]].
  exact S.
Defined.

(** ** Particles *)




Lemma awardPoints_particles v snap w :
  particles (game (awardPoints v snap w)) = particles (game w).
Proof.
  destruct (awardPoints_frame v snap w) as (_ & _ & _ & [-> | ->]);
    reflexivity.
Qed.

Lemma obstacleStep_particles_alive rand v snap bh o w keep o' w' :
  Forall alive (particles (game w)) ->
  obstacleStep rand v snap bh o w = Some (keep, o', w') ->
  Forall alive (particles (game w')).
Proof.
  intros A H. apply obstacleStep_inv in H.
  destruct H as [(_ & _ & _ & _ & c & _ & ->)
                | [(_ & _ & _ & _ & _ & ->) | (_ & _ & ->)]].
  - match goal with
    | |- context [createParticles ?r ?x ?y ?c ?b ?w0] =>
        destruct (createParticles_game r x y c b w0) as [ps [-> Hps]]
    end.
    cbn [particles set_particles]. rewrite awardPoints_particles.
    apply Forall_app. auto.
  - match goal with
    | |- context [createParticles ?r ?x ?y ?c ?b ?w0] =>
        destruct (createParticles_game r x y c b w0) as [ps [Hg Hps]];
        revert Hg; generalize (createParticles r x y c b w0)
    end.
    intros cp Hg. rewrite handleGameOver_spec.
    cbn [game particles set_gameRunning]. rewrite Hg.
    cbn [particles set_particles]. apply Forall_app. auto.
  - exact A.
Qed.

Lemma generateObstacles_game rand v snap w :
  particles (game (generateObstacles rand v snap w)) = particles (game w) /\
  gameRunning (game (generateObstacles rand v snap w))
    = gameRunning (game w) /\
  ball (game (generateObstacles rand v snap w)) = ball (game w).
Proof.
  unfold generateObstacles.
  destruct (_ >=? _); [|cbn; auto].
  destruct v; cbn; auto.
Qed.



Lemma handlePopupAction_GameCanvas rand Math_sin snap w :
  handlePopupAction rand Math_sin GameCanvas snap w
  = Some (popupReset GameCanvas snap w).
Proof. reflexivity. Qed.

Lemma handlePopupAction_Revised rand Math_sin snap w :
  handlePopupAction rand Math_sin Revised snap w
  = animate rand Math_sin Revised PopupLoop snap (popupReset Revised snap w).
Proof. reflexivity. Qed.





(** ** Spawning *)

Lemma obstacleFrequency_div v s :
  obstacleFrequency v s =
  match v with
  | GameCanvas => Z.max (80 - s / 50) 40
  | Revised => Z.max (100 - s / 200) 50
  end.
Proof.
  destruct v; unfold obstacleFrequency.
  - change (50%Q) with (inject_Z 50). now rewrite Math_floor_quotient.
  - change (200%Q) with (inject_Z 200). now rewrite Math_floor_quotient.
Qed.


Lemma obstacleFrequency_floor v s :
  match v with GameCanvas => 40 | Revised => 50 end <= obstacleFrequency v s.
Proof. rewrite obstacleFrequency_div. destruct v; lia. Qed.


Lemma generateObstacles_wait rand v snap w :
  obstacleTimer (game w) + 1 < obstacleFrequency v (s_score snap) ->
  generateObstacles rand v snap w =
  with_game (fun g => set_obstacleTimer (obstacleTimer g + 1) g) w.
Proof.
  intros H. unfold generateObstacles. cbn [with_game game obstacleTimer
    set_obstacleTimer].
  destruct (_ >=? _) eqn:E; [|reflexivity].
  apply Z.geb_le in E. lia.
Qed.

Lemma generateObstacles_spawn rand v snap w :
  obstacleFrequency v (s_score snap) <= obstacleTimer (game w) + 1 ->
  obstacleTimer (game (generateObstacles rand v snap w)) = 0 /\
  obstacles (game (generateObstacles rand v snap w)) =
  obstacles (game w) ++
  [fst (spawnObstacle rand v (getCurrentLevelColors (s_level snap)) w)].
Proof.
  intros H. unfold generateObstacles. cbn [with_game game obstacleTimer
    set_obstacleTimer].
  destruct (_ >=? _) eqn:E.
  - destruct v; cbn; auto.
  - rewrite Z.geb_leb in E. apply Z.leb_gt in E. lia.
Qed.

Lemma centred_GameCanvas_draw colors o o' :
  drawObstacle GameCanvas colors o = Some o' -> centred o'.
Proof.
  unfold drawObstacle. cbn.
  destruct (index colors (ob_colorIndex o)); [|discriminate].
  intros H. assert (E : o' = {| ob_x := canvasWidth / 2 - 120 / 2;
                                ob_y := ob_y o; ob_width := 120;
                                ob_height := 60;
                                ob_colorIndex := ob_colorIndex o;
                                ob_passed := ob_passed o |}) by congruence.
  rewrite E. reflexivity.
Qed.

Lemma drawObstacle_Revised colors o o' :
  drawObstacle Revised colors o = Some o' -> o' = o.
Proof.
  unfold drawObstacle.
  destruct (index colors (ob_colorIndex o)); [|discriminate]. congruence.
Qed.


(** The callback moves the gate down and may set the flag, nothing else. *)
Lemma obstacleStep_geometry rand v snap bh o w keep o' w' :
  obstacleStep rand v snap bh o w = Some (keep, o', w') ->
  ob_x o' = ob_x o /\ ob_width o' = ob_width o /\
  ob_height o' = ob_height o /\ ob_colorIndex o' = ob_colorIndex o.
Proof.
  intros H. apply obstacleStep_inv in H.
  destruct H as [(_ & _ & _ & -> & _)
                | [(_ & _ & _ & _ & -> & _) | (_ & -> & _)]];
    try (cbn; auto; fail).
  set (moved := set_ob_y (ob_y o + gameSpeed (game w))%Q o).
  destruct (markAndKeep_shape moved w) as [E|[_ E]]; rewrite E; cbn; auto.
Qed.



Lemma beginFrame_obstacles v loop snap w :
  obstacles (game (beginFrame v loop snap w)) = obstacles (game w).
Proof. apply beginFrame_game. Qed.



Lemma popupReset_obstacles v snap w :
  obstacles (game (popupReset v snap w)) = [].
Proof.
  unfold popupReset. destruct v; [reflexivity|].
  destruct (startsWith _ _); reflexivity.
Qed.



Lemma drawObstacle_defined v colors o :
  0 <= ob_colorIndex o < Z.of_nat (length colors) ->
  exists o', drawObstacle v colors o = Some o'.
Proof.
  intros I. destruct (index_in_range colors _ I) as [c Hc].
  unfold drawObstacle. destruct v; cbn [ob_colorIndex]; rewrite Hc; eauto.
Qed.

Lemma spawnObstacle_spec rand v colors w :
  (forall n, (0 <= rand n)%Q /\ (rand n < 1)%Q) ->
  0 < Z.of_nat (length colors) ->
  let g := fst (spawnObstacle rand v colors w) in
  ob_passed g = false /\
  (ob_y g + ob_height g <= 0)%Q /\
  0 <= ob_colorIndex g < Z.of_nat (length colors) /\
  match v with
  | Revised => centred g
  | GameCanvas =>
      (40 <= ob_x g)%Q /\ (ob_x g < canvasWidth - 40)%Q /\
      exists g', drawObstacle GameCanvas colors g = Some g' /\ centred g'
  end.
Proof.
  intros Hr Hn g.
  assert (I : 0 <= ob_colorIndex g < Z.of_nat (length colors)).
  { subst g. destruct v; cbn;
      (apply random_index; [apply Hr | apply Hr | exact Hn]). }
  split; [subst g; destruct v; reflexivity|].
  split; [subst g; destruct v; cbn; discriminate|].
  split; [exact I|].
  destruct v; [|reflexivity].
  split; [|split].
  - subst g. cbn. destruct (Hr (seed w)) as [H0 _].
    rewrite <- (Qplus_0_l 40) at 1. apply Qplus_le_compat; [|apply Qle_refl].
    apply Qmult_le_0_compat; [exact H0 | discriminate].
  - subst g. cbn. destruct (Hr (seed w)) as [_ H1].
    setoid_replace (canvasWidth - 40)%Q with (1 * (canvasWidth - 80) + 40)%Q
      by reflexivity.
    apply Qplus_lt_le_compat; [|apply Qle_refl].
    apply Qmult_lt_compat_r; [reflexivity | exact H1].
  - destruct (drawObstacle_defined GameCanvas colors g I) as [g' D].
    exists g'. split; [exact D | eapply centred_GameCanvas_draw, D].
Qed.




(** ** The level-up popup of [Revised] *)


(** The first frame of the loop that the popup button starts: nothing is
    on the canvas and the timer has just been reset. *)
Lemma animate_first_frame rand Math_sin v loop snap w w' :
  gameRunning (game w) = true ->
  obstacles (game w) = [] ->
  particles (game w) = [] ->
  obstacleTimer (game w) = 0 ->
  animate rand Math_sin v loop snap w = Some w' ->
  react w' = react (beginFrame v loop snap w) /\
  obstacles (game w') = [] /\ particles (game w') = [] /\
  obstacleTimer (game w') = 1 /\ gameRunning (game w') = true /\
  ball_colorIndex (ball (game w')) = ball_colorIndex (ball (game w)).
Proof.
  intros R Ho Hp Ht H.
  destruct (animate_running _ _ _ _ _ _ _ R H) as [kept [w2 [F D]]].
  destruct (beginFrame_game v loop snap w) as (Bo & Bp & Bt & Br & Bc & _).
  assert (L : obstacleTimer (game (beginFrame v loop snap w)) + 1
              < obstacleFrequency v (s_score snap)).
  { rewrite Bt, Ht. pose proof (obstacleFrequency_floor v (s_score snap)).
    destruct v; lia. }
  rewrite generateObstacles_wait in F by exact L.
  cbn [with_game game obstacles set_obstacleTimer] in F.
  rewrite Bo, Ho in F. cbn [filterObstacles] in F.
  assert (E2 : w2 = with_game
                      (fun g => set_obstacleTimer (obstacleTimer g + 1) g)
                      (beginFrame v loop snap w)) by congruence.
  assert (Ek : kept = []) by congruence.
  subst kept w2.
  apply draw_frame in D. destruct D as (Dr & _ & os & Dg & Dos).
  cbn in Dos. assert (os = []) by congruence. subst os.
  rewrite Dr, Dg.
  cbn [react game with_game updateParticles set_obstacles set_particles
       set_obstacleTimer obstacles particles obstacleTimer gameRunning ball].
  rewrite Bp, Hp, Bt, Ht, Br, Bc.
  repeat split; auto.
Qed.





(** ** The high score *)

Lemma obstacleStep_stays_stopped rand v snap bh o w keep o' w' :
  obstacleStep rand v snap bh o w = Some (keep, o', w') ->
  gameRunning (game w) = false -> gameRunning (game w') = false.
Proof.
  intros H R. apply obstacleStep_inv in H.
  destruct H as [(_ & _ & _ & _ & c & _ & ->)
                | [(_ & _ & _ & _ & _ & ->) | (_ & _ & ->)]].
  - match goal with
    | |- context [createParticles ?r ?x ?y ?cl ?b ?w0] =>
        destruct (createParticles_game r x y cl b w0) as [ps [-> _]]
    end.
    destruct (awardPoints_frame v snap w) as (_ & _ & _ & [-> | ->]);
      cbn; auto.
  - match goal with
    | |- context [createParticles ?r ?x ?y ?cl ?b ?w0] =>
        generalize (createParticles r x y cl b w0)
    end.
    intros cp. rewrite handleGameOver_spec. reflexivity.
  - exact R.
Qed.

Lemma obstacleStep_highScore rand v snap bh o w keep o' w' :
  obstacleStep rand v snap bh o w = Some (keep, o', w') ->
  highScore (react w') = highScore (react w) \/
  highScore (react w') = Z.max (s_score snap) (s_highScore snap) /\
  gameRunning (game w') = false.
Proof.
  intros H. apply obstacleStep_react in H.
  destruct H as [(_ & _ & ->) | [(_ & -> & R) | ->]].
  - left. apply awardPoints_frame.
  - right. rewrite handleGameOver_spec. auto.
  - left. reflexivity.
Qed.

Lemma animate_highScore rand Math_sin v loop w w' :
  animate rand Math_sin v loop (render w) w = Some w' ->
  highScore (react w') = highScore (react w) \/
  gameRunning (game w') = false /\
  highScore (react w') = Z.max (score (react w)) (highScore (react w)).
Proof.
  intros H. destruct (gameRunning (game w)) eqn:R.
  - destruct (animate_running _ _ _ _ _ _ _ R H) as [kept [w2 [F D]]].
    apply draw_frame in D. destruct D as (-> & _ & os & -> & _).
    cbn [react game with_game updateParticles set_obstacles set_particles
         gameRunning].
    assert (I : highScore (react w2) = highScore (react w) \/
                highScore (react w2)
                = Z.max (score (react w)) (highScore (react w)) /\
                gameRunning (game w2) = false); [|tauto].
    eapply (filterObstacles_invariant rand v (render w) _
              (fun x => highScore (react x) = highScore (react w) \/
                        highScore (react x)
                        = Z.max (score (react w)) (highScore (react w)) /\
                        gameRunning (game x) = false));
      [| |exact F].
    + intros o x keep o' x' HP S.
      pose proof (obstacleStep_stays_stopped _ _ _ _ _ _ _ _ _ S) as Stop.
      apply obstacleStep_highScore in S. cbn [render s_score s_highScore] in S.
      destruct S as [S|S]; [|right; exact S].
      rewrite S. destruct HP as [HP|[HP1 HP2]]; [left; exact HP|].
      right. auto.
    + left. rewrite generateObstacles_react, beginFrame_react.
      unfold updateLevel. destruct loop; [destruct (negb _)|]; reflexivity.
  - rewrite animate_stopped in H by exact R.
    assert (w' = w) by congruence. subst. left. reflexivity.
Qed.

Lemma popupReset_highScore v snap w :
  highScore (react (popupReset v snap w)) = highScore (react w).
Proof.
  unfold popupReset. destruct v; [reflexivity|].
  destruct (startsWith _ _); reflexivity.
Qed.

Lemma popupReset_first_frame snap w :
  gameRunning (game (popupReset Revised snap w)) = true /\
  obstacles (game (popupReset Revised snap w)) = [] /\
  particles (game (popupReset Revised snap w)) = [] /\
  obstacleTimer (game (popupReset Revised snap w)) = 0.
Proof.
  unfold popupReset. destruct (startsWith _ _); cbn; auto.
Qed.

Lemma handlePopupAction_highScore rand Math_sin v snap w w' :
  handlePopupAction rand Math_sin v snap w = Some w' ->
  highScore (react w') = highScore (react w).
Proof.
  intros H. destruct v.
  - rewrite handlePopupAction_GameCanvas in H.
    assert (E : w' = popupReset GameCanvas snap w) by congruence.
    rewrite E. apply popupReset_highScore.
  - rewrite handlePopupAction_Revised in H.
    destruct (popupReset_first_frame snap w) as (R & Ho & Hp & Ht).
    apply animate_first_frame in H; try assumption.
    destruct H as [-> _]. rewrite beginFrame_react.
    apply popupReset_highScore.
Qed.

Lemma step_highScore rand Math_sin v w e w' :
  step rand Math_sin v w e = Some w' ->
  highScore (react w') = highScore (react w) \/
  (exists loop, e = EFrame loop) /\
  gameRunning (game w') = false /\
  highScore (react w') = Z.max (score (react w)) (highScore (react w)).
Proof.
  intros H. destruct e as [| |loop|]; cbn [step] in H.
  - left. destruct (gameStarted (react w)); injection H as <-; reflexivity.
  - left. destruct (negb _ || negb _); injection H as <-; [reflexivity|].
    unfold changeColor. destruct (negb _); reflexivity.
  - destruct (negb _); [left; injection H as <-; reflexivity|].
    assert (A : animate rand Math_sin v loop (render w) w = Some w'
                -> highScore (react w') = highScore (react w) \/
                   (exists l, EFrame loop = EFrame l) /\
                   gameRunning (game w') = false /\
                   highScore (react w')
                   = Z.max (score (react w)) (highScore (react w))).
    { intros A. apply animate_highScore in A.
      destruct A as [A|A]; [left; exact A | right].
      split; [exists loop; reflexivity | exact A]. }
    destruct v, loop; try (apply A; exact H).
    left. injection H as <-. reflexivity.
  - left. destruct (_ && _); [|injection H as <-; reflexivity].
    eapply handlePopupAction_highScore, H.
Qed.

Lemma run_highScore rand Math_sin v es :
  forall w w',
    run rand Math_sin v w es = Some w' ->
    highScore (react w) <= highScore (react w').
Proof.
  induction es as [|e rest IH]; intros w w' H.
  - injection H as <-. lia.
  - cbn [run] in H.
    destruct (step rand Math_sin v w e) as [w1|] eqn:S; [|discriminate].
    apply IH in H. apply step_highScore in S.
    destruct S as [S|(_ & _ & S)]; lia.
Qed.

(** C10.  [handleGameOver] sets the high score to the larger of the score
    and the high score of the render.  Nothing else writes the high
    score: an event either leaves it as it is, or is a frame that ended
    the session and left the larger of the score and the high score that
    the frame started with.  The popup button leaves it as it is.  So the
    high score never goes down, whatever the events. *)
Theorem high_score_monotone (rand : nat -> Q) (Math_sin : Q -> Q)
    (v : Variant) :
  (forall snap w,
      highScore (react (handleGameOver v snap w))
      = Z.max (s_score snap) (s_highScore snap)) /\
  (forall w e w',
      step rand Math_sin v w e = Some w' ->
      highScore (react w') = highScore (react w) \/
      (exists loop, e = EFrame loop) /\
      gameRunning (game w') = false /\
      highScore (react w') = Z.max (score (react w)) (highScore (react w))) /\
  (forall w w',
      step rand Math_sin v w EAck = Some w' ->
      highScore (react w') = highScore (react w)) /\
  (forall es w w',
      run rand Math_sin v w es = Some w' ->
      highScore (react w) <= highScore (react w')).
Proof.
  split; [reflexivity|]. split; [apply step_highScore|].
  split; [|intros es; apply run_highScore].
  intros w w' H. apply step_highScore in H.
  destruct H as [H|[[loop E] _]]; [exact H | discriminate].
Qed.

Lemma high_score_monotone_witness :
  let w := with_game (set_obstacles [sampleGate 399 1])
             (with_react (setScore (fun _ => 30)) sampleWorld) in
  let es := [EFrame MainLoop; EAck] in
  let w2 := match run sampleRand sampleSin GameCanvas w es with
            | Some x => x
            | None => w
            end in
  run sampleRand sampleSin GameCanvas w es = Some w2 /\
  highScore (react w) <= highScore (react w2) /\
  highScore (react w) = 0 /\ highScore (react w2) = 30 /\
  score (react w2) = 0.
Proof.
  intros w es w2.
  assert (H : run sampleRand sampleSin GameCanvas w es = Some w2)
    by (vm_compute; reflexivity).
  split; [exact H|]. split.
  - exact (proj2 (proj2 (proj2
             (high_score_monotone sampleRand sampleSin GameCanvas)))
             es w w2 H).
  - repeat split; vm_compute; reflexivity.
Defined.

(** ** Worked frames *)

(** A frame in which the ball meets a gate of its colour: both versions
    add 10 points, mark the gate and throw 15 particles, whose life the
    particle filter of the same frame brings from 60 to 59. *)
Example frame_with_matching_gate :
  forall v,
    let w := with_game (set_obstacles [sampleGate 399 0]) sampleWorld in
    match step sampleRand sampleSin v w (EFrame MainLoop) with
    | Some w' =>
        score (react w') = 10 /\
        map ob_passed (obstacles (game w')) = [true] /\
        map pt_life (particles (game w')) = repeat 59 15 /\
        obstacleTimer (game w') = 1 /\
        session w' = Running
    | None => False
    end.
Proof. intros [|]; vm_compute; repeat split. Qed.

(** A frame in which the ball meets a gate of another colour: the session
    is over, the gate is gone, and the high score is the score. *)
Example frame_with_mismatched_gate :
  forall v,
    let w := with_game (set_obstacles [sampleGate 399 1])
               (with_react (setScore (fun _ => 30)) sampleWorld) in
    match step sampleRand sampleSin v w (EFrame MainLoop) with
    | Some w' =>
        score (react w') = 30 /\ highScore (react w') = 30 /\
        obstacles (game w') = [] /\
        map pt_life (particles (game w')) = repeat 29 8 /\
        session w' = Ended
    | None => False
    end.
Proof. intros [|]; vm_compute; repeat split. Qed.

(** The tenth point of the second hundred: [Revised] pauses on the popup
    and resumes, with the next level, on the button; [GameCanvas] goes on
    running and takes the next level one frame later. *)
Example level_up_Revised :
  let w := with_game (set_obstacles [sampleGate 399 0])
             (with_react (setScore (fun _ => 190)) sampleWorld) in
  match run sampleRand sampleSin Revised w [EFrame MainLoop] with
  | Some w1 =>
      session w1 = PausedLevelUp /\ score (react w1) = 200 /\
      level (react w1) = 2 /\
      match step sampleRand sampleSin Revised w1 EAck with
      | Some w2 =>
          session w2 = Running /\ score (react w2) = 200 /\
          level (react w2) = 2 /\ obstacles (game w2) = [] /\
          particles (game w2) = [] /\ obstacleTimer (game w2) = 1
      | None => False
      end
  | None => False
  end.
Proof. vm_compute. repeat split. Qed.

Example level_up_GameCanvas :
  let w := with_game (set_obstacles [sampleGate 399 0])
             (with_react (setScore (fun _ => 190)) sampleWorld) in
  match run sampleRand sampleSin GameCanvas w [EFrame MainLoop] with
  | Some w1 =>
      session w1 = Running /\ score (react w1) = 200 /\
      level (react w1) = 1 /\
      match step sampleRand sampleSin GameCanvas w1 (EFrame MainLoop) with
      | Some w2 => session w2 = Running /\ level (react w2) = 2
      | None => False
      end
  | None => False
  end.
Proof. vm_compute. repeat split. Qed.

(** A colour index outside the colours of the level: the drawing code
    throws. *)
Example frame_with_bad_colour_throws :
  forall v,
    let w := with_game (fun g => set_ball (set_colorIndex 2 (ball g)) g)
               sampleWorld in
    step sampleRand sampleSin v w (EFrame MainLoop) = None.
Proof. intros [|]; vm_compute; reflexivity. Qed.


(** * Further properties *)

(** ** [createParticles], in full *)

Lemma pushParticle_spec rand x y color isSuccess w :
  pushParticle rand x y color isSuccess w =
  {| react := react w;
     game := set_particles
               (particles (game w)
                ++ [sparkFrom rand x y color isSuccess (seed w)])
               (game w);
     seed := (seed w + 4)%nat |}.
Proof.
  unfold pushParticle, Math_random, sparkFrom, with_game. cbn [seed game react].
  replace (seed w + 4)%nat with (S (S (S (S (seed w))))) by lia.
  replace (seed w + 1)%nat with (S (seed w)) by lia.
  replace (seed w + 2)%nat with (S (S (seed w))) by lia.
  replace (seed w + 3)%nat with (S (S (S (seed w)))) by lia.
  reflexivity.
Qed.

Lemma pushParticles_full rand count x y color isSuccess :
  forall w,
    pushParticles rand count x y color isSuccess w =
    {| react := react w;
       game := set_particles
                 (particles (game w)
                  ++ map (fun k => sparkFrom rand x y color isSuccess
                                     (seed w + 4 * k))
                         (seq 0 count))
                 (game w);
       seed := (seed w + 4 * count)%nat |}.
Proof.
  induction count as [|k IH]; intros w.
  - cbn [pushParticles seq map]. rewrite app_nil_r, Nat.mul_0_r, Nat.add_0_r.
    destruct w as [r [] s]. reflexivity.
  - cbn [pushParticles]. rewrite IH, pushParticle_spec.
    cbn [react game seed particles set_particles].
    f_equal.
    + unfold set_particles. cbn. f_equal.
      rewrite <- app_assoc. f_equal. cbn [seq map app].
      f_equal; [f_equal; lia|].
      rewrite <- seq_shift, map_map. apply map_ext. intros a.
      f_equal. lia.
    + lia.
Qed.

Lemma createParticles_seed rand x y color isSuccess w :
  seed (createParticles rand x y color isSuccess w)
  = (seed w + 4 * (if isSuccess then 15 else 8))%nat.
Proof.
  unfold createParticles. rewrite pushParticles_full.
  destruct isSuccess; reflexivity.
Qed.

(** ** The store across a frame *)

(** One run of the callback of the obstacle filter touches, in the ref,
    the particles and the running flag only. *)
Lemma obstacleStep_game rand v snap bh o w keep o' w' :
  obstacleStep rand v snap bh o w = Some (keep, o', w') ->
  ball (game w') = ball (game w) /\
  obstacles (game w') = obstacles (game w) /\
  gameSpeed (game w') = gameSpeed (game w) /\
  obstacleTimer (game w') = obstacleTimer (game w) /\
  ref_gameStarted (game w') = ref_gameStarted (game w) /\
  (gameRunning (game w') = gameRunning (game w) \/
   gameRunning (game w') = false) /\
  (seed w <= seed w')%nat /\
  exists ps, particles (game w') = particles (game w) ++ ps.
Proof.
  intros H. apply obstacleStep_inv in H.
  destruct H as [(_ & _ & _ & _ & c & _ & ->)
                | [(_ & _ & _ & _ & _ & ->) | (_ & _ & ->)]].
  - match goal with
    | |- context [createParticles ?r ?x ?y ?cl ?b ?w0] =>
        pose proof (createParticles_seed r x y cl b w0) as Hs;
        destruct (createParticles_game r x y cl b w0) as [ps [Hg _]];
        revert Hs Hg; generalize (createParticles r x y cl b w0)
    end.
    intros cp Hs Hg. rewrite Hg, Hs.
    destruct (awardPoints_frame v snap w) as (_ & _ & -> & [G | G]);
      rewrite G;
      cbn [ball obstacles gameSpeed obstacleTimer ref_gameStarted gameRunning
           particles set_particles set_gameRunning];
      repeat split; auto; try lia; eauto.
  - match goal with
    | |- context [createParticles ?r ?x ?y ?cl ?b ?w0] =>
        pose proof (createParticles_seed r x y cl b w0) as Hs;
        destruct (createParticles_game r x y cl b w0) as [ps [Hg _]];
        revert Hs Hg; generalize (createParticles r x y cl b w0)
    end.
    intros cp Hs Hg. rewrite handleGameOver_spec.
    cbn [game seed]. rewrite Hg, Hs.
    cbn [ball obstacles gameSpeed obstacleTimer ref_gameStarted gameRunning
         particles set_particles set_gameRunning].
    repeat split; auto; try lia; eauto.
  - repeat split; auto. exists []. now rewrite app_nil_r.
Qed.

Lemma filterObstacles_game rand v snap bh os :
  forall w kept w',
    filterObstacles rand v snap bh os w = Some (kept, w') ->
    ball (game w') = ball (game w) /\
    obstacles (game w') = obstacles (game w) /\
    gameSpeed (game w') = gameSpeed (game w) /\
    obstacleTimer (game w') = obstacleTimer (game w) /\
    ref_gameStarted (game w') = ref_gameStarted (game w) /\
    (gameRunning (game w') = gameRunning (game w) \/
     gameRunning (game w') = false) /\
    (seed w <= seed w')%nat.
Proof.
  intros w kept w' H.
  eapply (filterObstacles_invariant rand v snap bh
            (fun x =>
               ball (game x) = ball (game w) /\
               obstacles (game x) = obstacles (game w) /\
               gameSpeed (game x) = gameSpeed (game w) /\
               obstacleTimer (game x) = obstacleTimer (game w) /\
               ref_gameStarted (game x) = ref_gameStarted (game w) /\
               (gameRunning (game x) = gameRunning (game w) \/
                gameRunning (game x) = false) /\
               (seed w <= seed x)%nat));
    [| |exact H].
  - intros o x keep o' x' (Hb & Ho & Hs & Ht & Hg & Hr & Hd) S.
    apply obstacleStep_game in S.
    destruct S as (Sb & So & Ss & St & Sg & Sr & Sd & _).
    rewrite Sb, So, Ss, St, Sg.
    repeat split; auto; [|lia].
    destruct Sr as [-> | ->]; auto.
  - repeat split; auto.
Qed.

Lemma filterObstacles_length rand v snap bh os :
  forall w kept w',
    filterObstacles rand v snap bh os w = Some (kept, w') ->
    (length kept <= length os)%nat.
Proof.
  induction os as [|o rest IH]; intros w kept w' H.
  - assert (kept = []) by (cbn in H; congruence). subst. cbn. lia.
  - cbn [filterObstacles] in H.
    destruct (obstacleStep rand v snap bh o w)
      as [[[keep o1] w1]|] eqn:E; [|discriminate].
    destruct (filterObstacles rand v snap bh rest w1)
      as [[kept1 w2]|] eqn:F; [|discriminate].
    apply IH in F.
    assert (K : kept = if keep then o1 :: kept1 else kept1) by congruence.
    rewrite K. destruct keep; cbn; lia.
Qed.

Lemma beginFrame_ball v loop snap w :
  ball (game (beginFrame v loop snap w)) =
    set_bounceOffset
      (ball_bounceOffset (ball (game w)) + ball_bounceSpeed (ball (game w)))%Q
      (ball (game w)) /\
  gameSpeed (game (beginFrame v loop snap w)) = speedFor v (s_score snap) /\
  ref_gameStarted (game (beginFrame v loop snap w))
  = ref_gameStarted (game w).
Proof.
  unfold beginFrame, updateLevel. destruct loop; [destruct (negb _)|];
    cbn; auto.
Qed.

Lemma generateObstacles_timer rand v snap w :
  obstacleTimer (game (generateObstacles rand v snap w)) =
  if obstacleTimer (game w) + 1 >=? obstacleFrequency v (s_score snap)
  then 0 else obstacleTimer (game w) + 1.
Proof.
  unfold generateObstacles.
  cbn [with_game game obstacleTimer set_obstacleTimer].
  destruct (_ >=? _); [|reflexivity].
  destruct v; reflexivity.
Qed.

Lemma generateObstacles_rest rand v snap w :
  gameSpeed (game (generateObstacles rand v snap w)) = gameSpeed (game w) /\
  ref_gameStarted (game (generateObstacles rand v snap w))
  = ref_gameStarted (game w) /\
  (seed w <= seed (generateObstacles rand v snap w))%nat /\
  (length (obstacles (game (generateObstacles rand v snap w)))
   <= length (obstacles (game w)) + 1)%nat.
Proof.
  unfold generateObstacles.
  cbn [with_game game obstacleTimer set_obstacleTimer].
  destruct (_ >=? _); [|cbn; repeat split; auto; lia].
  destruct v; cbn; rewrite length_app; cbn; repeat split; auto; lia.
Qed.

Lemma drawObstacles_each v colors os :
  forall os', drawObstacles v colors os = Some os' ->
    Forall2 (fun o o' => drawObstacle v colors o = Some o') os os'.
Proof.
  induction os as [|o rest IH]; intros os' H.
  - assert (os' = []) by (cbn in H; congruence). subst. constructor.
  - cbn [drawObstacles] in H.
    destruct (drawObstacle v colors o) as [o1|] eqn:D; [|discriminate].
    destruct (drawObstacles v colors rest) as [rest1|] eqn:R; [|discriminate].
    assert (os' = o1 :: rest1) by congruence. subst os'.
    constructor; [exact D | apply IH; reflexivity].
Qed.

(** A frame of a running session, field by field. *)
Lemma animate_fields rand Math_sin v loop snap w w' :
  gameRunning (game w) = true ->
  animate rand Math_sin v loop snap w = Some w' ->
  ball (game w') =
    set_bounceOffset
      (ball_bounceOffset (ball (game w)) + ball_bounceSpeed (ball (game w)))%Q
      (ball (game w)) /\
  gameSpeed (game w') = speedFor v (s_score snap) /\
  ref_gameStarted (game w') = ref_gameStarted (game w) /\
  obstacleTimer (game w') =
    (if obstacleTimer (game w) + 1 >=? obstacleFrequency v (s_score snap)
     then 0 else obstacleTimer (game w) + 1) /\
  (seed w <= seed w')%nat /\
  (length (obstacles (game w')) <= length (obstacles (game w)) + 1)%nat.
Proof.
  intros R H.
  destruct (animate_running _ _ _ _ _ _ _ R H) as [kept [w2 [F D]]].
  pose proof (filterObstacles_length _ _ _ _ _ _ _ _ F) as Len.
  apply filterObstacles_game in F.
  destruct F as (Fb & _ & Fs & Ft & Fg & _ & Fd).
  apply draw_frame in D. destruct D as (_ & Dd & os & Dg & Dos).
  apply drawObstacles_each, Forall2_length in Dos.
  cbn [updateParticles with_game game obstacles set_obstacles set_particles]
    in Dos.
  destruct (generateObstacles_game rand v snap (beginFrame v loop snap w))
    as (_ & _ & Gb).
  destruct (generateObstacles_rest rand v snap (beginFrame v loop snap w))
    as (Gs & Gg & Gd & Gl).
  destruct (beginFrame_ball v loop snap w) as (Bb & Bs & Bg).
  destruct (beginFrame_game v loop snap w) as (Bo & _ & Bt & _ & _ & Bd).
  rewrite Dg, Dd.
  cbn [updateParticles with_game game seed ball gameSpeed ref_gameStarted
       obstacleTimer obstacles set_obstacles set_particles].
  rewrite Fb, Fs, Fg, Ft, Gb, Gs, Gg, Bb, Bs, Bg, generateObstacles_timer, Bt.
  rewrite Bo in Gl. rewrite Bd in Gd.
  repeat split; auto; lia.
Qed.

(** ** Bursts of particles and the speed of the gates *)



Lemma speedFor_div v s :
  (speedFor v s ==
   2 + inject_Z (s / 100)
       * match v with GameCanvas => 1 # 2 | Revised => 1 # 4 end)%Q.
Proof.
  unfold speedFor. change (100%Q) with (inject_Z 100).
  rewrite Math_floor_quotient.
  destruct v; (apply Qplus_comp; [reflexivity|]; apply Qmult_comp;
               reflexivity).
Qed.

(** X2.  While the session runs, a frame sets the speed to 2 plus one
    half ([GameCanvas]) or one quarter ([Revised]) for every full hundred
    of the score of the render.  This speed does not decrease when the
    score grows and is at least 2 for a score that is not negative. *)
Theorem speed_follows_score (v : Variant) :
  (forall s,
      (speedFor v s ==
       2 + inject_Z (s / 100)
           * match v with GameCanvas => 1 # 2 | Revised => 1 # 4 end)%Q) /\
  (forall s t, s <= t -> (speedFor v s <= speedFor v t)%Q) /\
  (forall s, 0 <= s -> (2 <= speedFor v s)%Q) /\
  (forall rand Math_sin loop snap w w',
      gameRunning (game w) = true ->
      animate rand Math_sin v loop snap w = Some w' ->
      gameSpeed (game w') = speedFor v (s_score snap)).
Proof.
  split; [apply speedFor_div|]. split; [|split].
  - intros s t H. rewrite !speedFor_div.
    assert (D : s / 100 <= t / 100) by (apply Z.div_le_mono; lia).
    rewrite Zle_Qle in D. destruct v; lra.
  - intros s H. rewrite speedFor_div.
    assert (D : 0 <= s / 100) by (apply Z.div_pos; lia).
    rewrite Zle_Qle in D. change (inject_Z 0) with 0%Q in D.
    destruct v; lra.
  - intros rand Math_sin loop snap w w' R H.
    apply (animate_fields _ _ _ _ _ _ _ R H).
Qed.

Lemma speed_follows_score_witness :
  let w := with_react (setScore (fun _ => 250)) sampleWorld in
  let w' := match animate sampleRand sampleSin Revised MainLoop (render w) w
            with Some x => x | None => w end in
  (gameRunning (game w) = true /\
   animate sampleRand sampleSin Revised MainLoop (render w) w = Some w') /\
  gameSpeed (game w') = speedFor Revised 250 /\
  (speedFor Revised 250 == 5 # 2)%Q /\
  (speedFor GameCanvas 250 == 3)%Q.
Proof.
  intros w w'.
  assert (R : gameRunning (game w) = true) by reflexivity.
  assert (H : animate sampleRand sampleSin Revised MainLoop (render w) w
              = Some w') by (vm_compute; reflexivity).
  split; [auto|].
  split; [|split; reflexivity].
  exact (proj2 (proj2 (proj2 (speed_follows_score Revised)))
           sampleRand sampleSin MainLoop (render w) w w' R H).
Defined.

(** ** The callback on one gate *)

Lemma obstacleStep_keep rand v snap bh o w keep o' w' :
  obstacleStep rand v snap bh o w = Some (keep, o', w') ->
  ob_y o' = (ob_y o + gameSpeed (game w))%Q /\
  (ob_passed o = true -> o' = set_ob_y (ob_y o + gameSpeed (game w))%Q o /\
                         w' = w) /\
  (keep = true ->
   (ob_y o' < canvasHeight + 50)%Q /\
   ((ball_y (ball (game w)) + ball_radius (ball (game w)) + 20 < ob_y o')%Q ->
    ob_passed o' = true)).
Proof.
  intros H.
  set (moved := set_ob_y (ob_y o + gameSpeed (game w))%Q o).
  assert (MK : forall w1,
             ob_y (snd (markAndKeep moved w1)) = ob_y moved /\
             fst (markAndKeep moved w1)
             = Qltb (ob_y moved) (canvasHeight + 50)%Q).
  { intros w1. unfold markAndKeep.
    destruct (negb (ob_passed moved) && _); cbn; auto. }
  destruct (collision (ball (game w)) bh moved && negb (ob_passed o)) eqn:C.
  - apply andb_true_iff in C. destruct C as [C P].
    apply negb_true_iff in P.
    destruct (Z.eq_dec (ball_colorIndex (ball (game w))) (ob_colorIndex o))
      as [M|M].
    + pose proof H as H0. apply obstacleStep_inv in H0.
      destruct H0 as [(_ & _ & _ & _ & c & Hc & _)
                     | [(_ & N & _) | (N & _)]];
        [| congruence | fold moved in N; rewrite C, P in N; discriminate].
      apply index_some_range in Hc.
      destruct (obstacleStep_scored rand v snap bh o w C P M Hc) as [c' E].
      fold moved in E. rewrite E in H.
      assert (K : keep = Qltb (ob_y moved) (canvasHeight + 50)%Q)
        by congruence.
      assert (O : o' = set_ob_passed true moved) by congruence.
      rewrite O, K. cbn [ob_y ob_passed set_ob_passed].
      split; [reflexivity|]. split; [congruence|].
      intros L. apply Qltb_lt in L. auto.
    + rewrite (obstacleStep_failed rand v snap bh o w C P M) in H.
      fold moved in H.
      assert (K : keep = false) by congruence.
      assert (O : o' = moved) by congruence.
      rewrite O, K. split; [reflexivity|]. split; [congruence|].
      discriminate.
  - rewrite (obstacleStep_idle rand v snap bh o w C) in H. fold moved in H.
    assert (K : keep = fst (markAndKeep moved w)) by congruence.
    assert (O : o' = snd (markAndKeep moved w)) by congruence.
    assert (W : w' = w) by congruence.
    destruct (MK w) as [My Mk]. rewrite O, K, My, Mk.
    split; [reflexivity|]. split.
    + intros P. rewrite markAndKeep_passed by exact P. auto.
    + intros L. apply Qltb_lt in L. split; [exact L|].
      intros B. unfold markAndKeep.
      destruct (ob_passed moved) eqn:P; cbn [negb andb snd]; [exact P|].
      apply Qltb_lt in B. unfold Qgtb. rewrite B. reflexivity.
Qed.

(** X3.  One run of the callback of the obstacle filter moves the gate
    down by the speed of the ref and changes nothing else of the gate but
    the flag.  A gate that the callback keeps is above the line 50 under
    the canvas, and is marked passed as soon as its top is more than 20
    under the bottom of the ball.  On a gate already marked the callback
    does nothing to the store: such a gate can neither score nor end the
    session. *)
Theorem callback_moves_gate (rand : nat -> Q) (v : Variant) (snap : Snapshot)
    (bounceHeight : Q) (o : Obstacle) (w : World) (keep : bool)
    (o' : Obstacle) (w' : World) :
  obstacleStep rand v snap bounceHeight o w = Some (keep, o', w') ->
  ob_y o' = (ob_y o + gameSpeed (game w))%Q /\
  ob_x o' = ob_x o /\ ob_width o' = ob_width o /\
  ob_height o' = ob_height o /\ ob_colorIndex o' = ob_colorIndex o /\
  (keep = true -> (ob_y o' < canvasHeight + 50)%Q) /\
  (keep = true ->
   (ball_y (ball (game w)) + ball_radius (ball (game w)) + 20 < ob_y o')%Q ->
   ob_passed o' = true) /\
  (ob_passed o = true -> w' = w).
Proof.
  intros H.
  destruct (obstacleStep_geometry _ _ _ _ _ _ _ _ _ H) as (Gx & Gw & Gh & Gc).
  destruct (obstacleStep_keep _ _ _ _ _ _ _ _ _ H) as (Ky & Kp & Kk).
  repeat split; auto.
  - intros K. apply Kk, K.
  - intros K. apply Kk, K.
  - intros P. apply Kp, P.
Qed.

Lemma callback_moves_gate_witness :
  let o := sampleGate 539 0 in
  let r := match obstacleStep sampleRand Revised sampleSnapshot 0 o
                   sampleWorld with
           | Some x => x
           | None => (false, o, sampleWorld)
           end in
  obstacleStep sampleRand Revised sampleSnapshot 0 o sampleWorld
  = Some (fst (fst r), snd (fst r), snd r) /\
  fst (fst r) = true /\
  ob_y (snd (fst r)) = (539 + gameSpeed (game sampleWorld))%Q /\
  ob_passed (snd (fst r)) = true.
Proof.
  intros o r.
  assert (H : obstacleStep sampleRand Revised sampleSnapshot 0 o sampleWorld
              = Some (fst (fst r), snd (fst r), snd r))
    by (vm_compute; reflexivity).
  assert (K : fst (fst r) = true) by (vm_compute; reflexivity).
  split; [exact H|]. split; [exact K|].
  destruct (callback_moves_gate _ _ _ _ _ _ _ _ _ H)
    as (Hy & _ & _ & _ & _ & _ & Hp & _).
  split; [exact Hy|].
  apply Hp; [exact K|]. vm_compute. reflexivity.
Defined.

(** ** What every store of a session satisfies *)

Lemma filterObstacles_kept_at rand v snap bh os :
  forall w kept w',
    filterObstacles rand v snap bh os w = Some (kept, w') ->
    forall o', In o' kept ->
      exists o w1 w2, In o os /\
        obstacleStep rand v snap bh o w1 = Some (true, o', w2) /\
        ball (game w1) = ball (game w) /\
        gameSpeed (game w1) = gameSpeed (game w).
Proof.
  induction os as [|o rest IH]; intros w kept w' H o' Hin.
  - assert (kept = []) by (cbn in H; congruence). subst. destruct Hin.
  - cbn [filterObstacles] in H.
    destruct (obstacleStep rand v snap bh o w)
      as [[[keep o1] w1]|] eqn:E; [|discriminate].
    destruct (filterObstacles rand v snap bh rest w1)
      as [[kept1 w2]|] eqn:F; [|discriminate].
    assert (K : kept = if keep then o1 :: kept1 else kept1) by congruence.
    destruct (obstacleStep_game _ _ _ _ _ _ _ _ _ E)
      as (Sb & _ & Ss & _).
    assert (Hrest : In o' kept1 ->
              exists o0 w3 w4, In o0 (o :: rest) /\
                obstacleStep rand v snap bh o0 w3 = Some (true, o', w4) /\
                ball (game w3) = ball (game w) /\
                gameSpeed (game w3) = gameSpeed (game w)).
    { intros Hk.
      destruct (IH _ _ _ F _ Hk) as (o0 & w3 & w4 & Hi & Hs & Hb & Hg).
      exists o0, w3, w4. repeat split; auto; [right; exact Hi | |];
        congruence. }
    rewrite K in Hin. destruct keep; [|auto].
    destruct Hin as [<-|Hk]; [|auto].
    exists o, w, w1. repeat split; auto. left. reflexivity.
Qed.

Lemma awardPoints_sound v snap w :
  reactSound (react w) -> reactSound (react (awardPoints v snap w)).
Proof.
  unfold reactSound. intros (S0 & S10 & L & H0 & H10).
  assert (M : (score (react w) + 10) mod 10 = 0)
    by (rewrite <- Z.add_mod_idemp_l, S10 by lia; reflexivity).
  destruct v.
  - cbn. repeat split; auto; lia.
  - destruct (Z_gt_le_dec (newLevel (score (react w) + 10)) (s_level snap))
      as [G|G].
    + rewrite awardPoints_levelUp by exact G. cbn.
      pose proof (newLevel_range (score (react w) + 10)).
      repeat split; auto; lia.
    + rewrite awardPoints_same_level by exact G. cbn.
      repeat split; auto; lia.
Qed.

Lemma handleGameOver_sound v snap w :
  0 <= s_score snap -> s_score snap mod 10 = 0 ->
  0 <= s_highScore snap -> s_highScore snap mod 10 = 0 ->
  reactSound (react w) -> reactSound (react (handleGameOver v snap w)).
Proof.
  unfold reactSound. intros A B C D (S0 & S10 & L & H0 & H10).
  rewrite handleGameOver_spec. cbn.
  repeat split; auto; try lia.
  destruct (Z.max_spec (s_score snap) (s_highScore snap)) as [[_ ->]|[_ ->]];
    assumption.
Qed.

Lemma obstacleFrequency_cap v s :
  0 <= s -> 0 < obstacleFrequency v s <= timerCap v.
Proof.
  intros H. rewrite obstacleFrequency_div. unfold timerCap.
  destruct v.
  - assert (0 <= s / 50) by (apply Z.div_pos; lia). lia.
  - assert (0 <= s / 200) by (apply Z.div_pos; lia). lia.
Qed.

Lemma animate_sound rand Math_sin v loop snap w w' :
  0 <= s_score snap -> s_score snap mod 10 = 0 ->
  0 <= s_highScore snap -> s_highScore snap mod 10 = 0 ->
  sound v w ->
  animate rand Math_sin v loop snap w = Some w' ->
  sound v w'.
Proof.
  intros A B C D [Sr (St & Sb & Sg)] H.
  destruct (gameRunning (game w)) eqn:R;
    [|rewrite animate_stopped in H by exact R;
      assert (w' = w) by congruence; subst;
      exact (conj Sr (conj St (conj Sb Sg)))].
  destruct (animate_fields _ _ _ _ _ _ _ R H) as (Fb & _ & _ & Ft & _).
  destruct (animate_running _ _ _ _ _ _ _ R H) as [kept [w2 [F D']]].
  split; [|split; [|split]].
  - apply draw_frame in D'. destruct D' as (-> & _).
    cbn [updateParticles with_game react].
    eapply (filterObstacles_invariant rand v snap _
              (fun x => reactSound (react x))); [| |exact F].
    + intros o x keep o' x' HP S. apply obstacleStep_react in S.
      destruct S as [(_ & _ & ->) | [(_ & -> & _) | ->]];
        [apply awardPoints_sound | apply handleGameOver_sound | ]; assumption.
    + rewrite generateObstacles_react, beginFrame_react.
      destruct loop; [|exact Sr].
      unfold updateLevel. destruct (negb _); [|exact Sr].
      destruct Sr as (S0 & S10 & L & H0 & H10). unfold reactSound. cbn.
      pose proof (newLevel_range (s_score snap) A). repeat split; auto; lia.
  - rewrite Ft. pose proof (obstacleFrequency_cap v (s_score snap) A) as Cap.
    destruct (_ >=? _) eqn:E; [lia|].
    rewrite Z.geb_leb in E. apply Z.leb_gt in E. lia.
  - rewrite Fb. cbn. exact Sb.
  - apply draw_frame in D'. destruct D' as (_ & _ & os & -> & Dos).
    cbn [obstacles set_obstacles].
    cbn [updateParticles with_game game obstacles set_obstacles
         set_particles] in Dos.
    apply drawObstacles_each in Dos.
    assert (K : Forall (fun o =>
                  (ob_y o < canvasHeight + 50)%Q /\
                  ((500 + 20 + 20 < ob_y o)%Q -> ob_passed o = true)) kept).
    { apply Forall_forall. intros o' Hin.
      destruct (filterObstacles_kept_at _ _ _ _ _ _ _ _ F _ Hin)
        as (o & w1 & w3 & _ & S & Hb & _).
      apply obstacleStep_keep in S. destruct S as (_ & _ & Kk).
      destruct (Kk eq_refl) as [Ky Kp]. split; [exact Ky|].
      intros Far. apply Kp.
      destruct (generateObstacles_game rand v snap
                  (beginFrame v loop snap w)) as (_ & _ & Gb).
      destruct (beginFrame_ball v loop snap w) as (Bb & _).
      rewrite Hb, Gb, Bb. cbn.
      destruct Sb as (_ & Ey & Er & _). rewrite Ey, Er. exact Far. }
    clear - K Dos. induction Dos as [|o o' l l' D _ IH];
      [constructor|].
    inversion K as [|? ? Ko Kl]; subst. constructor; [|apply IH, Kl].
    apply drawObstacle_passed in D. destruct D as (-> & _ & -> & _).
    exact Ko.
Qed.

Lemma popupReset_sound v snap w :
  1 <= s_level snap <= 5 ->
  sound v w -> sound v (popupReset v snap w).
Proof.
  intros L [(S0 & S10 & Lv & H0 & H10) (St & Sb & Sg)].
  unfold popupReset, sound, reactSound, refSound, timerCap.
  destruct v; [|destruct (startsWith _ _)]; cbn;
    repeat split; auto; try lia; try apply Sb.
Qed.

Lemma render_sound v w :
  sound v w ->
  0 <= s_score (render w) /\ s_score (render w) mod 10 = 0 /\
  0 <= s_highScore (render w) /\ s_highScore (render w) mod 10 = 0 /\
  1 <= s_level (render w) <= 5.
Proof. intros [(S0 & S10 & Lv & H0 & H10) _]. cbn. auto. Qed.

Lemma step_sound rand Math_sin v w e w' :
  sound v w -> step rand Math_sin v w e = Some w' -> sound v w'.
Proof.
  intros A H. pose proof (render_sound v w A) as (R1 & R2 & R3 & R4 & R5).
  destruct e as [| |loop|]; cbn [step] in H.
  - destruct (gameStarted (react w));
      [assert (w' = w) by congruence; subst; exact A|].
    assert (E : w' = startGame w) by congruence. rewrite E.
    destruct A as [Sr Sg]. split; [exact Sr | exact Sg].
  - destruct (negb _ || negb _);
      [assert (w' = w) by congruence; subst; exact A|].
    assert (E : w' = changeColor (render w) w) by congruence. rewrite E.
    unfold changeColor. destruct (negb _); [exact A|].
    destruct A as [Sr Sg]. split; [exact Sr | exact Sg].
  - destruct (negb _);
      [assert (w' = w) by congruence; subst; exact A|].
    destruct v, loop;
      try (eapply animate_sound; [| | | | exact A | exact H]; assumption).
    assert (w' = w) by congruence; subst; exact A.
  - destruct (_ && _);
      [|assert (w' = w) by congruence; subst; exact A].
    destruct v.
    + rewrite handlePopupAction_GameCanvas in H.
      assert (E : w' = popupReset GameCanvas (render w) w) by congruence.
      rewrite E. apply popupReset_sound; assumption.
    + rewrite handlePopupAction_Revised in H.
      eapply animate_sound; [| | | | |exact H]; try assumption.
      apply popupReset_sound; assumption.
Qed.

Lemma initialWorld_sound v : sound v initialWorld.
Proof.
  unfold sound, reactSound, refSound, timerCap. cbn.
  repeat split; try lia; try reflexivity; try (destruct v; lia).
  constructor.
Qed.

Lemma run_sound rand Math_sin v es :
  forall w w',
    sound v w -> run rand Math_sin v w es = Some w' -> sound v w'.
Proof.
  induction es as [|e rest IH]; intros w w' A H.
  - assert (w' = w) by (cbn in H; congruence). subst. exact A.
  - cbn [run] in H.
    destruct (step rand Math_sin v w e) as [w1|] eqn:S; [|discriminate].
    eapply IH; [|exact H]. eapply step_sound; eassumption.
Qed.

(** X4.  In every store that a session reaches, the score and the high
    score are multiples of 10 that are not negative, and the level is one
    of 1 to 5, so that 2 to 5 colours are in play. *)
Theorem score_and_level_ranges (rand : nat -> Q) (Math_sin : Q -> Q)
    (v : Variant) (es : list Event) (w : World) :
  run rand Math_sin v initialWorld es = Some w ->
  (0 <= score (react w) /\ score (react w) mod 10 = 0) /\
  (0 <= highScore (react w) /\ highScore (react w) mod 10 = 0) /\
  1 <= level (react w) <= 5 /\
  2 <= colorCount (level (react w)) <= 5.
Proof.
  intros H.
  destruct (run_sound rand Math_sin v es initialWorld w
              (initialWorld_sound v) H) as [(S0 & S10 & L & H0 & H10) _].
  repeat split; auto; try lia; rewrite colorCount_level by lia; lia.
Qed.

Lemma score_and_level_ranges_witness :
  let es := [EStart; EFrame MainLoop; EInput; EFrame MainLoop] in
  let w := match run sampleRand sampleSin GameCanvas initialWorld es with
           | Some x => x
           | None => initialWorld
           end in
  run sampleRand sampleSin GameCanvas initialWorld es = Some w /\
  0 <= score (react w) /\ 1 <= level (react w) <= 5.
Proof.
  intros es w.
  assert (H : run sampleRand sampleSin GameCanvas initialWorld es = Some w)
    by (vm_compute; reflexivity).
  split; [exact H|].
  destruct (score_and_level_ranges sampleRand sampleSin GameCanvas es w H)
    as ((S0 & _) & _ & L & _).
  split; [exact S0 | exact L].
Defined.

(** X5.  In every store that a session reaches, the spawn timer is at
    least 0 and under 80 ([GameCanvas]) or 100 ([Revised]); for a score
    that is not negative the threshold is between 40 and 80, or 50 and
    100.  So while the session runs a gate is spawned at least every 80
    (100) frames, and after a spawn the next one is 40 (50) frames away
    or more. *)
Theorem spawn_timer_bounded (rand : nat -> Q) (Math_sin : Q -> Q)
    (v : Variant) (es : list Event) (w : World) :
  run rand Math_sin v initialWorld es = Some w ->
  0 <= obstacleTimer (game w)
    < match v with GameCanvas => 80 | Revised => 100 end /\
  match v with GameCanvas => 40 | Revised => 50 end
    <= obstacleFrequency v (score (react w))
    <= match v with GameCanvas => 80 | Revised => 100 end /\
  (forall loop w',
      gameRunning (game w) = true ->
      animate rand Math_sin v loop (render w) w = Some w' ->
      obstacleTimer (game w') =
      if obstacleTimer (game w) + 1
         >=? obstacleFrequency v (score (react w))
      then 0 else obstacleTimer (game w) + 1).
Proof.
  intros H.
  destruct (run_sound rand Math_sin v es initialWorld w
              (initialWorld_sound v) H)
    as [(S0 & _) (St & _)].
  split; [destruct v; exact St|]. split.
  - pose proof (obstacleFrequency_floor v (score (react w))).
    pose proof (obstacleFrequency_cap v (score (react w)) S0).
    unfold timerCap in *. destruct v; lia.
  - intros loop w' R A.
    destruct (animate_fields _ _ _ _ _ _ _ R A) as (_ & _ & _ & Ft & _).
    exact Ft.
Qed.

Lemma spawn_timer_bounded_witness :
  let es := [EStart; EFrame MainLoop; EFrame MainLoop] in
  let w := match run sampleRand sampleSin Revised initialWorld es with
           | Some x => x
           | None => initialWorld
           end in
  run sampleRand sampleSin Revised initialWorld es = Some w /\
  0 <= obstacleTimer (game w) < 100 /\ obstacleTimer (game w) = 2.
Proof.
  intros es w.
  assert (H : run sampleRand sampleSin Revised initialWorld es = Some w)
    by (vm_compute; reflexivity).
  split; [exact H|].
  destruct (spawn_timer_bounded sampleRand sampleSin Revised es w H)
    as (T & _).
  split; [exact T | vm_compute; reflexivity].
Defined.


(** X6.  In every store that a session reaches, every gate is above the
    line 50 under the canvas, and every gate whose top is more than 20
    under the bottom of the ball (beyond 540) is marked passed: the
    collection never holds a gate that went by and could still score or
    end the session. *)
Theorem gates_in_play (rand : nat -> Q) (Math_sin : Q -> Q)
    (v : Variant) (es : list Event) (w : World) :
  run rand Math_sin v initialWorld es = Some w ->
  Forall (fun o =>
            (ob_y o < 650)%Q /\ ((540 < ob_y o)%Q -> ob_passed o = true))
         (obstacles (game w)).
Proof.
  intros H.
  destruct (run_sound rand Math_sin v es initialWorld w
              (initialWorld_sound v) H) as [_ (_ & _ & G)].
  eapply Forall_impl; [|exact G].
  intros o [Hy Hp]. split.
  - unfold canvasHeight in Hy. lra.
  - intros F. apply Hp. lra.
Qed.

Lemma gates_in_play_witness :
  let es := [EStart] ++ repeat (EFrame MainLoop) 101 in
  let w := match run sampleRand sampleSin Revised initialWorld es with
           | Some x => x
           | None => initialWorld
           end in
  run sampleRand sampleSin Revised initialWorld es = Some w /\
  length (obstacles (game w)) = 1%nat /\
  Forall (fun o => (ob_y o < 650)%Q /\
                   ((540 < ob_y o)%Q -> ob_passed o = true))
         (obstacles (game w)).
Proof.
  intros es w.
  assert (H : run sampleRand sampleSin Revised initialWorld es = Some w)
    by (vm_compute; reflexivity).
  split; [exact H|]. split; [vm_compute; reflexivity|].
  exact (gates_in_play sampleRand sampleSin Revised es w H).
Defined.

(** X7.  Nothing moves the ball: in every store that a session reaches it
    is at (150, 500) with radius 20.  A frame leaves the colour index of
    the ball alone; an input changes nothing in the store but the colour
    index of the ball. *)
Theorem ball_stays_put (rand : nat -> Q) (Math_sin : Q -> Q) (v : Variant) :
  (forall es w,
      run rand Math_sin v initialWorld es = Some w ->
      ball_x (ball (game w)) = 150%Q /\ ball_y (ball (game w)) = 500%Q /\
      ball_radius (ball (game w)) = 20%Q) /\
  (forall loop w w',
      step rand Math_sin v w (EFrame loop) = Some w' ->
      ball_colorIndex (ball (game w')) = ball_colorIndex (ball (game w))) /\
  (forall w w',
      step rand Math_sin v w EInput = Some w' ->
      react w' = react w /\ seed w' = seed w /\
      game w' =
        set_ball (set_colorIndex (ball_colorIndex (ball (game w')))
                    (ball (game w)))
                 (game w)).
Proof.
  split; [|split].
  - intros es w H.
    destruct (run_sound rand Math_sin v es initialWorld w
                (initialWorld_sound v) H) as [_ (_ & B & _)].
    tauto.
  - intros loop w w' H. cbn [step] in H.
    destruct (negb (gameStarted (react w)));
      [assert (w' = w) by congruence; subst; reflexivity|].
    assert (A : animate rand Math_sin v loop (render w) w = Some w' ->
                ball_colorIndex (ball (game w'))
                = ball_colorIndex (ball (game w))).
    { intros A. destruct (gameRunning (game w)) eqn:R.
      - destruct (animate_fields _ _ _ _ _ _ _ R A) as (-> & _).
        reflexivity.
      - rewrite animate_stopped in A by exact R.
        assert (w' = w) by congruence. subst. reflexivity. }
    destruct v, loop; try (apply A; exact H).
    assert (w' = w) by congruence. subst. reflexivity.
  - intros w w' H. cbn [step] in H.
    assert (Same : forall x : World,
               react x = react x /\ seed x = seed x /\
               game x = set_ball (set_colorIndex
                                    (ball_colorIndex (ball (game x)))
                                    (ball (game x))) (game x)).
    { intros [r [[] ? ? ? ? ? ?] s]. cbn. auto. }
    destruct (negb _ || negb _);
      [assert (w' = w) by congruence; subst; apply Same|].
    assert (E : w' = changeColor (render w) w) by congruence. rewrite E.
    unfold changeColor. destruct (negb _); [apply Same|].
    cbn. auto.
Qed.

Lemma ball_stays_put_witness :
  let es := [EStart; EInput; EFrame MainLoop] in
  let w := match run sampleRand sampleSin GameCanvas initialWorld es with
           | Some x => x
           | None => initialWorld
           end in
  run sampleRand sampleSin GameCanvas initialWorld es = Some w /\
  ball_x (ball (game w)) = 150%Q /\ ball_y (ball (game w)) = 500%Q /\
  ball_radius (ball (game w)) = 20%Q /\
  ball_colorIndex (ball (game w)) = 1.
Proof.
  intros es w.
  assert (H : run sampleRand sampleSin GameCanvas initialWorld es = Some w)
    by (vm_compute; reflexivity).
  split; [exact H|].
  destruct (proj1 (ball_stays_put sampleRand sampleSin GameCanvas) es w H)
    as (Bx & By & Br).
  repeat split; auto.
Defined.

(** X8.  A session that has not started ignores everything but the start
    button, and a session that is over or paused ignores everything but
    the popup button: no input and no frame changes the store. *)
Theorem stopped_session_is_frozen (rand : nat -> Q) (Math_sin : Q -> Q)
    (v : Variant) (w : World) (es : list Event) :
  (gameStarted (react w) = false /\ Forall (fun e => e <> EStart) es) \/
  (gameStarted (react w) = true /\ gameRunning (game w) = false /\
   Forall (fun e => e <> EAck) es) ->
  run rand Math_sin v w es = Some w.
Proof.
  intros H. induction es as [|e rest IH]; [reflexivity|].
  assert (S : step rand Math_sin v w e = Some w).
  { destruct H as [(St & F) | (St & R & F)];
      inversion F as [|? ? Ne _]; subst;
      destruct e as [| |loop|]; cbn [step]; rewrite St; cbn;
      try congruence; try reflexivity.
    - rewrite R. reflexivity.
    - destruct v, loop; try reflexivity; apply animate_stopped, R. }
  cbn [run]. rewrite S. apply IH.
  destruct H as [(St & F) | (St & R & F)]; [left | right];
    inversion F; subst; auto.
Qed.

Lemma stopped_session_is_frozen_witness :
  let w := handleGameOver Revised sampleSnapshot sampleWorld in
  let es := [EInput; EFrame MainLoop; EStart; EFrame PopupLoop; EInput] in
  (gameStarted (react w) = true /\ gameRunning (game w) = false /\
   Forall (fun e => e <> EAck) es) /\
  run sampleRand sampleSin Revised w es = Some w.
Proof.
  intros w es.
  assert (H : gameStarted (react w) = true /\ gameRunning (game w) = false /\
              Forall (fun e => e <> EAck) es).
  { split; [reflexivity|]. split; [reflexivity|].
    repeat constructor; discriminate. }
  split; [exact H|].
  exact (stopped_session_is_frozen sampleRand sampleSin Revised w es
           (or_intror H)).
Defined.

(** ** The popup button after a game over *)

Lemma session_ended w :
  session w = Ended <->
  gameStarted (react w) = true /\ gameRunning (game w) = false /\
  startsWith (popupText (react w)) "Game Over" = true.
Proof.
  unfold session.
  destruct (gameStarted (react w)), (gameRunning (game w)); cbn;
    destruct (startsWith _ _); split;
    try discriminate; try tauto; intros (? & ? & ?); discriminate.
Qed.

Lemma popupReset_gameOver snap w :
  startsWith (s_popupText snap) "Game Over" = true ->
  popupReset Revised snap w =
  {| react := setScore (fun _ => 0) (setShowPopup false (react w));
     game := {| ball := set_colorIndex 0 (ball (game w)); obstacles := [];
                gameSpeed :=
                  (2 + inject_Z
                         (Math_floor
                            (inject_Z ((s_level snap - 1) * 100) / 100))
                       * (25 # 100))%Q;
                obstacleTimer := 0;
                gameRunning := true; ref_gameStarted := true;
                particles := [] |};
     seed := seed w |}.
Proof. intros H. unfold popupReset. rewrite H. reflexivity. Qed.

(** A frame of a running session with no gate and the timer under the
    threshold. *)
Lemma animate_quiet_frame rand Math_sin v loop snap w w' :
  gameRunning (game w) = true ->
  obstacles (game w) = [] ->
  obstacleTimer (game w) + 1 < obstacleFrequency v (s_score snap) ->
  animate rand Math_sin v loop snap w = Some w' ->
  react w' = react (beginFrame v loop snap w) /\
  obstacles (game w') = [] /\
  particles (game w') = filterParticles (particles (game w)) /\
  gameRunning (game w') = true.
Proof.
  intros R Ho Ht H.
  destruct (animate_running _ _ _ _ _ _ _ R H) as [kept [w2 [F D]]].
  destruct (beginFrame_game v loop snap w) as (Bo & Bp & Bt & Br & Bc & _).
  rewrite generateObstacles_wait in F by (rewrite Bt; exact Ht).
  cbn [with_game game obstacles set_obstacleTimer] in F.
  rewrite Bo, Ho in F. cbn [filterObstacles] in F.
  assert (E2 : w2 = with_game
                      (fun g => set_obstacleTimer (obstacleTimer g + 1) g)
                      (beginFrame v loop snap w)) by congruence.
  assert (Ek : kept = []) by congruence.
  subst kept w2.
  apply draw_frame in D. destruct D as (Dr & _ & os & Dg & Dos).
  cbn in Dos. assert (os = []) by congruence. subst os.
  rewrite Dr, Dg.
  cbn [react game with_game updateParticles set_obstacles set_particles
       set_obstacleTimer obstacles particles gameRunning].
  rewrite Bp, Br. repeat split; auto.
Qed.

(** X9.  The popup button after a game over.  Both versions hide the
    popup, set the session running, bring the score, the spawn timer and
    the colour index of the ball back to 0 and empty the gates and the
    particles; the high score stays.  [GameCanvas] brings the level back
    to 1 and the speed to 2; [Revised] keeps the level and sets the speed
    to 2 plus a quarter for each level above the first. *)
Theorem game_over_reset (v : Variant) (w : World) :
  session w = Ended ->
  let wr := popupReset v (render w) w in
  session wr = Running /\ showPopup (react wr) = false /\
  score (react wr) = 0 /\ highScore (react wr) = highScore (react w) /\
  ball_colorIndex (ball (game wr)) = 0 /\
  obstacles (game wr) = [] /\ particles (game wr) = [] /\
  obstacleTimer (game wr) = 0 /\
  match v with
  | GameCanvas => level (react wr) = 1 /\ gameSpeed (game wr) = 2%Q
  | Revised =>
      level (react wr) = level (react w) /\
      (gameSpeed (game wr) == 2 + inject_Z (level (react w) - 1) * (1 # 4))%Q
  end.
Proof.
  intros S wr. apply session_ended in S. destruct S as (St & Rn & Tx).
  assert (Run : forall x, gameStarted (react x) = true ->
                          gameRunning (game x) = true ->
                          session x = Running)
    by (intros x A B; apply session_running; auto).
  destruct v.
  - unfold wr, popupReset.
    split; [apply Run; cbn; auto|]. cbn. repeat split; reflexivity.
  - unfold wr. rewrite popupReset_gameOver by exact Tx.
    split; [apply Run; cbn; auto|]. cbn [react game showPopup score
      highScore level ball obstacles particles obstacleTimer gameSpeed
      setScore setShowPopup set_colorIndex ball_colorIndex render s_level].
    repeat split; try reflexivity.
    change (100%Q) with (inject_Z 100).
    rewrite Math_floor_quotient, Z.div_mul by lia.
    apply Qplus_comp; [reflexivity|]. apply Qmult_comp; reflexivity.
Qed.

Lemma game_over_reset_witness :
  let w := handleGameOver Revised
             {| s_score := 450; s_level := 3; s_highScore := 200;
                s_popupText := "" |}
             (with_react (setLevel 3)
                (with_react (setScore (fun _ => 450)) sampleWorld)) in
  let wr := popupReset Revised (render w) w in
  session w = Ended /\
  score (react wr) = 0 /\ highScore (react wr) = 450 /\
  level (react wr) = 3 /\ (gameSpeed (game wr) == 5 # 2)%Q /\
  session wr = Running.
Proof.
  intros w wr.
  assert (S : session w = Ended) by (vm_compute; reflexivity).
  split; [exact S|].
  destruct (game_over_reset Revised w S)
    as (Run & _ & Sc & Hs & _ & _ & _ & _ & Lv & Sp).
  split; [exact Sc|]. split; [exact Hs|]. split; [exact Lv|].
  split; [|exact Run].
  eapply Qeq_trans; [exact Sp|]. vm_compute. reflexivity.
Defined.

(** X10.  [Revised]: the level that the popup button keeps after a game
    over does not outlive the next frame of the main loop.  That frame
    sees the score 0 and stores its level, 1; the frames of the loop that
    the button starts do not touch the level. *)
Theorem level_kept_until_next_frame (rand : nat -> Q) (Math_sin : Q -> Q)
    (w w1 : World) :
  session w = Ended ->
  showPopup (react w) = true ->
  step rand Math_sin Revised w EAck = Some w1 ->
  (level (react w1) = level (react w) /\ score (react w1) = 0 /\
   session w1 = Running) /\
  (forall w2,
      step rand Math_sin Revised w1 (EFrame MainLoop) = Some w2 ->
      level (react w2) = 1 /\ score (react w2) = 0) /\
  (forall w2,
      step rand Math_sin Revised w1 (EFrame PopupLoop) = Some w2 ->
      level (react w2) = level (react w) /\ score (react w2) = 0).
Proof.
  intros S P H.
  pose proof S as S'. apply session_ended in S'.
  destruct S' as (St & Rn & Tx).
  cbn [step] in H. rewrite St, P in H. cbn [andb] in H.
  rewrite handlePopupAction_Revised in H.
  destruct (game_over_reset Revised w S)
    as (Run & _ & Sc & _ & _ & Ho & Hp & Ht & Lv & _).
  apply session_running in Run. destruct Run as [Rs Rr].
  apply animate_first_frame in H; try assumption.
  destruct H as (Hr & Ho1 & Hp1 & Ht1 & Hr1 & _).
  rewrite beginFrame_react in Hr.
  assert (St1 : gameStarted (react w1) = true) by (rewrite Hr; exact Rs).
  assert (Sc1 : score (react w1) = 0) by (rewrite Hr; exact Sc).
  assert (Lv1 : level (react w1) = level (react w))
    by (rewrite Hr; exact Lv).
  assert (Quiet : obstacleTimer (game w1) + 1
                  < obstacleFrequency Revised (s_score (render w1))).
  { cbn [render s_score]. rewrite Ht1, Sc1. reflexivity. }
  split; [|split].
  - split; [exact Lv1|]. split; [exact Sc1|].
    apply session_running. auto.
  - intros w2 F. cbn [step] in F. rewrite St1 in F. cbn [negb] in F.
    apply animate_quiet_frame in F; try assumption.
    destruct F as (-> & _). rewrite beginFrame_react.
    split.
    + rewrite updateLevel_level, Sc1. reflexivity.
    + unfold updateLevel. destruct (negb _); cbn; exact Sc1.
  - intros w2 F. cbn [step] in F. rewrite St1 in F. cbn [negb] in F.
    apply animate_quiet_frame in F; try assumption.
    destruct F as (-> & _). rewrite beginFrame_react. auto.
Qed.

Lemma level_kept_until_next_frame_witness :
  let w := handleGameOver Revised
             {| s_score := 450; s_level := 3; s_highScore := 200;
                s_popupText := "" |}
             (with_react (setLevel 3)
                (with_react (setScore (fun _ => 450)) sampleWorld)) in
  let w1 := match step sampleRand sampleSin Revised w EAck with
            | Some x => x
            | None => w
            end in
  let w2 := match step sampleRand sampleSin Revised w1 (EFrame MainLoop) with
            | Some x => x
            | None => w1
            end in
  (session w = Ended /\ showPopup (react w) = true /\
   step sampleRand sampleSin Revised w EAck = Some w1 /\
   step sampleRand sampleSin Revised w1 (EFrame MainLoop) = Some w2) /\
  level (react w1) = 3 /\ level (react w2) = 1.
Proof.
  intros w w1 w2.
  assert (S : session w = Ended) by (vm_compute; reflexivity).
  assert (P : showPopup (react w) = true) by (vm_compute; reflexivity).
  assert (H1 : step sampleRand sampleSin Revised w EAck = Some w1)
    by (vm_compute; reflexivity).
  assert (H2 : step sampleRand sampleSin Revised w1 (EFrame MainLoop)
               = Some w2) by (vm_compute; reflexivity).
  split; [auto|].
  destruct (level_kept_until_next_frame sampleRand sampleSin w w1 S P H1)
    as ((L1 & _) & M & _).
  split; [exact L1|]. exact (proj1 (M w2 H2)).
Defined.

(** ** Particles in flight *)










(** ** When a frame throws *)

Lemma obstacleStep_defined rand v snap bh o w :
  0 <= ob_colorIndex o < colorCount (s_level snap) ->
  exists r, obstacleStep rand v snap bh o w = Some r.
Proof.
  intros I.
  set (moved := set_ob_y (ob_y o + gameSpeed (game w))%Q o).
  destruct (collision (ball (game w)) bh moved && negb (ob_passed o)) eqn:C.
  - apply andb_true_iff in C. destruct C as [C P].
    apply negb_true_iff in P.
    destruct (Z.eq_dec (ball_colorIndex (ball (game w))) (ob_colorIndex o))
      as [M|M].
    + destruct (obstacleStep_scored rand v snap bh o w C P M I) as [c E].
      eauto.
    + rewrite (obstacleStep_failed rand v snap bh o w C P M). eauto.
  - rewrite (obstacleStep_idle rand v snap bh o w C). eauto.
Qed.

Lemma filterObstacles_defined rand v snap bh os :
  Forall (fun o => 0 <= ob_colorIndex o < colorCount (s_level snap)) os ->
  forall w, exists kept w',
    filterObstacles rand v snap bh os w = Some (kept, w').
Proof.
  induction 1 as [|o rest Ho _ IH]; intros w; [cbn; eauto|].
  destruct (obstacleStep_defined rand v snap bh o w Ho) as [[[keep o1] w1] E].
  destruct (IH w1) as [kept [w2 F]].
  exists (if keep then o1 :: kept else kept), w2.
  change (filterObstacles rand v snap bh (o :: rest) w) with
    (r <- obstacleStep rand v snap bh o w ;;
     let '(keep, o', w) := r in
     r' <- filterObstacles rand v snap bh rest w ;;
     let '(kept, w) := r' in
     Some (if keep then o' :: kept else kept, w)).
  rewrite E, F. reflexivity.
Qed.

Lemma drawObstacles_defined v colors os :
  Forall (fun o => 0 <= ob_colorIndex o < Z.of_nat (length colors)) os ->
  exists os', drawObstacles v colors os = Some os'.
Proof.
  induction 1 as [|o rest Ho _ [rest' IH]]; [cbn; eauto|].
  destruct (drawObstacle_defined v colors o Ho) as [o' D].
  exists (o' :: rest'). cbn [drawObstacles]. rewrite D, IH. reflexivity.
Qed.

Lemma generateObstacles_in_range rand v snap w :
  (forall n, (0 <= rand n)%Q /\ (rand n < 1)%Q) ->
  1 <= s_level snap ->
  Forall (fun o => 0 <= ob_colorIndex o < colorCount (s_level snap))
         (obstacles (game w)) ->
  Forall (fun o => 0 <= ob_colorIndex o < colorCount (s_level snap))
         (obstacles (game (generateObstacles rand v snap w))).
Proof.
  intros Hr HL A.
  destruct (Z_lt_le_dec (obstacleTimer (game w) + 1)
              (obstacleFrequency v (s_score snap))) as [L|L].
  - rewrite generateObstacles_wait by exact L. exact A.
  - destruct (generateObstacles_spawn rand v snap w L) as [_ ->].
    apply Forall_app. split; [exact A|]. constructor; [|constructor].
    apply spawnObstacle_spec; [exact Hr|].
    fold (colorCount (s_level snap)). rewrite colorCount_level by lia. lia.
Qed.

(** X12.  When a frame throws.  A frame of a session that is not running
    returns at once.  A frame of a running session throws when the colour
    index of the ball is not an index of the colours of the level of the
    render.  It does not throw when that index and the colour index of
    every gate are indices of those colours, [Math.random] being in
    [[0, 1)] and the level at least 1. *)
Theorem frame_throws (rand : nat -> Q) (Math_sin : Q -> Q) (v : Variant)
    (loop : Loop) (snap : Snapshot) (w : World) :
  (gameRunning (game w) = false ->
   animate rand Math_sin v loop snap w = Some w) /\
  (gameRunning (game w) = true ->
   ~ 0 <= ball_colorIndex (ball (game w)) < colorCount (s_level snap) ->
   animate rand Math_sin v loop snap w = None) /\
  (gameRunning (game w) = true ->
   (forall n, (0 <= rand n)%Q /\ (rand n < 1)%Q) ->
   1 <= s_level snap ->
   0 <= ball_colorIndex (ball (game w)) < colorCount (s_level snap) ->
   Forall (fun o => 0 <= ob_colorIndex o < colorCount (s_level snap))
          (obstacles (game w)) ->
   exists w', animate rand Math_sin v loop snap w = Some w').
Proof.
  split; [apply animate_stopped|]. split.
  - intros R N.
    destruct (animate rand Math_sin v loop snap w) as [w'|] eqn:H;
      [|reflexivity].
    exfalso. apply N.
    destruct (animate_fields _ _ _ _ _ _ _ R H) as (Fb & _).
    destruct (animate_running _ _ _ _ _ _ _ R H) as [kept [w2 [_ D]]].
    unfold draw in D.
    destruct (drawObstacles v _ _) as [os|]; [|discriminate].
    destruct (index (getCurrentLevelColors (s_level snap)) _) as [c|] eqn:I;
      [|discriminate].
    assert (E : w' = with_game (set_obstacles os)
                       (updateParticles (with_game (set_obstacles kept) w2)))
      by congruence.
    apply index_some_range in I. rewrite <- E, Fb in I. exact I.
  - intros R Hr HL Ib Ig.
    destruct (beginFrame_game v loop snap w) as (Bo & _ & _ & _ & Bc & _).
    set (b := beginFrame v loop snap w) in *.
    assert (G : Forall (fun o => 0 <= ob_colorIndex o
                                 < colorCount (s_level snap))
                  (obstacles (game (generateObstacles rand v snap b))))
      by (apply generateObstacles_in_range; [| |rewrite Bo]; assumption).
    destruct (filterObstacles_defined rand v snap
                (Math_sin (ball_bounceOffset (ball (game b))) * 5)%Q _ G
                (generateObstacles rand v snap b)) as [kept [w2 F]].
    assert (K : Forall (fun o => 0 <= ob_colorIndex o
                                 < colorCount (s_level snap)) kept).
    { apply Forall_forall. intros o' Hin.
      destruct (filterObstacles_kept _ _ _ _ _ _ _ _ F _ Hin)
        as (o & w3 & w4 & Ho & S).
      apply obstacleStep_geometry in S. destruct S as (_ & _ & _ & ->).
      rewrite Forall_forall in G. apply G, Ho. }
    destruct (drawObstacles_defined v _ _ K) as [os D].
    pose proof (filterObstacles_game _ _ _ _ _ _ _ _ F) as (Fb & _).
    destruct (generateObstacles_game rand v snap b) as (_ & _ & Gb).
    assert (I : 0 <= ball_colorIndex (ball (game w2))
                < colorCount (s_level snap))
      by (rewrite Fb, Gb, Bc; exact Ib).
    destruct (index_in_range _ _ I) as [c Hc].
    unfold animate. rewrite R. cbn [negb]. fold b. rewrite F.
    unfold draw.
    cbn [updateParticles with_game game obstacles set_obstacles
         set_particles ball].
    rewrite D, Hc. eauto.
Qed.

Lemma frame_throws_witness :
  let w := with_game (set_obstacles [sampleGate 399 1]) sampleWorld in
  (gameRunning (game w) = true /\
   (forall n, (0 <= sampleRand n)%Q /\ (sampleRand n < 1)%Q) /\
   1 <= s_level sampleSnapshot /\
   0 <= ball_colorIndex (ball (game w)) < colorCount (s_level sampleSnapshot)
   /\ Forall (fun o => 0 <= ob_colorIndex o
                       < colorCount (s_level sampleSnapshot))
             (obstacles (game w))) /\
  exists w',
    animate sampleRand sampleSin Revised MainLoop sampleSnapshot w = Some w'.
Proof.
  intros w.
  assert (R : gameRunning (game w) = true) by reflexivity.
  assert (Hr : forall n, (0 <= sampleRand n)%Q /\ (sampleRand n < 1)%Q)
    by (intros n; split; [discriminate | reflexivity]).
  assert (HL : 1 <= s_level sampleSnapshot) by (vm_compute; discriminate).
  assert (Ib : 0 <= ball_colorIndex (ball (game w))
               < colorCount (s_level sampleSnapshot))
    by (split; vm_compute; [discriminate | reflexivity]).
  assert (Ig : Forall (fun o => 0 <= ob_colorIndex o
                                < colorCount (s_level sampleSnapshot))
                 (obstacles (game w)))
    by (constructor;
        [split; vm_compute; [discriminate | reflexivity] | constructor]).
  split; [auto 10|].
  exact (proj2 (proj2 (frame_throws sampleRand sampleSin Revised MainLoop
                         sampleSnapshot w)) R Hr HL Ib Ig).
Defined.

(** ** Colours across levels *)

Lemma getCurrentLevelColors_firstn L :
  -1 <= L ->
  getCurrentLevelColors L = firstn (Z.to_nat (Z.min (L + 1) 5)) ALL_COLORS.
Proof.
  intros H. unfold getCurrentLevelColors, slice0.
  assert (E : (Z.min (L + 1) 5 <? 0) = false) by (apply Z.ltb_ge; lia).
  rewrite E. f_equal. cbn [length ALL_COLORS]. lia.
Qed.

(** X13.  A colour index keeps its colour when the level grows: the
    colours of a level are the first ones of [ALL_COLORS], and those of a
    lower level come first among those of a higher one.  So the colour of
    the ball and of the gates in play is the same before and after a
    level-up. *)
Theorem colours_keep_their_index (L L' i : Z) (c : Color) :
  1 <= L <= L' ->
  index (getCurrentLevelColors L) i = Some c ->
  index (getCurrentLevelColors L') i = Some c /\
  index ALL_COLORS i = Some c /\
  0 <= i < colorCount L.
Proof.
  intros HL H. pose proof (index_some_range _ _ _ H) as R.
  fold (colorCount L) in R.
  rewrite colorCount_level in R by lia. split; [|split].
  - revert H. unfold index. destruct (i <? 0); [discriminate|].
    rewrite !getCurrentLevelColors_firstn, !nth_error_firstn by lia.
    destruct (Nat.ltb_spec (Z.to_nat i) (Z.to_nat (Z.min (L + 1) 5)));
      [|discriminate].
    destruct (Nat.ltb_spec (Z.to_nat i) (Z.to_nat (Z.min (L' + 1) 5)));
      [auto | lia].
  - revert H. unfold index. destruct (i <? 0); [discriminate|].
    rewrite getCurrentLevelColors_firstn, nth_error_firstn by lia.
    destruct (Nat.ltb_spec (Z.to_nat i) (Z.to_nat (Z.min (L + 1) 5)));
      [auto | discriminate].
  - rewrite colorCount_level by lia. exact R.
Qed.

Lemma colours_keep_their_index_witness :
  let yellow := {| name := "Yellow"; value := "#ffcc00";
                   shadow := "#ffcc0080" |} in
  (1 <= 2 <= 4 /\ index (getCurrentLevelColors 2) 2 = Some yellow) /\
  index (getCurrentLevelColors 4) 2 = Some yellow.
Proof.
  intros yellow.
  assert (HL : 1 <= 2 <= 4) by lia.
  assert (H : index (getCurrentLevelColors 2) 2 = Some yellow)
    by reflexivity.
  split; [auto|].
  exact (proj1 (colours_keep_their_index 2 4 2 yellow HL H)).
Defined.

(** X14.  While the session runs, one press takes any colour index that
    is not negative into the colours of the level, and from a colour of
    the level every colour of the level is fewer presses away than there
    are colours. *)
Theorem every_colour_in_reach (snap : Snapshot) (w : World) (j : Z) :
  gameRunning (game w) = true ->
  1 <= s_level snap ->
  0 <= ball_colorIndex (ball (game w)) ->
  let n := colorCount (s_level snap) in
  0 <= ball_colorIndex (ball (game (changeColor snap w))) < n /\
  (ball_colorIndex (ball (game w)) < n -> 0 <= j < n ->
   exists k, (k < Z.to_nat n)%nat /\
     ball_colorIndex (ball (game (Nat.iter k (changeColor snap) w))) = j).
Proof.
  intros R HL Hi n.
  assert (Hn : 2 <= n) by (unfold n; rewrite colorCount_level by lia; lia).
  split.
  - rewrite changeColor_index by exact R. fold n.
    rewrite Z.rem_mod_nonneg by lia. apply Z.mod_pos_bound. lia.
  - intros Hlt Hj.
    set (i := ball_colorIndex (ball (game w))) in *.
    exists (Z.to_nat ((j - i) mod n)).
    assert (B : 0 <= (j - i) mod n < n) by (apply Z.mod_pos_bound; lia).
    split; [lia|].
    destruct (changeColor_iter snap w (Z.to_nat ((j - i) mod n)) R)
      as [_ E]; [fold i n; lia|].
    rewrite E. fold i n. rewrite Z2Nat.id by lia.
    rewrite Z.add_mod_idemp_r by lia.
    replace (i + (j - i)) with j by lia. apply Z.mod_small. exact Hj.
Qed.

Lemma every_colour_in_reach_witness :
  let snap := {| s_score := 450; s_level := 3; s_highScore := 0;
                 s_popupText := "" |} in
  let w := with_game (fun g => set_ball (set_colorIndex 3 (ball g)) g)
             sampleWorld in
  (gameRunning (game w) = true /\ 1 <= s_level snap /\
   0 <= ball_colorIndex (ball (game w)) < colorCount (s_level snap)) /\
  exists k, (k < 4)%nat /\
    ball_colorIndex (ball (game (Nat.iter k (changeColor snap) w))) = 1.
Proof.
  intros snap w.
  assert (R : gameRunning (game w) = true) by reflexivity.
  assert (HL : 1 <= s_level snap) by (cbn; lia).
  assert (Hi : 0 <= ball_colorIndex (ball (game w))) by (cbn; lia).
  assert (Hlt : ball_colorIndex (ball (game w)) < colorCount (s_level snap))
    by (vm_compute; reflexivity).
  split; [auto|].
  destruct (every_colour_in_reach snap w 1 R HL Hi) as [_ H].
  apply H; [exact Hlt | split; vm_compute; [discriminate | reflexivity]].
Defined.

(** ** What one frame can add *)

Lemma filterObstacles_points rand v snap bh os :
  forall w kept w',
    filterObstacles rand v snap bh os w = Some (kept, w') ->
    exists k, 0 <= k <= Z.of_nat (length os) /\
              score (react w') = score (react w) + 10 * k.
Proof.
  induction os as [|o rest IH]; intros w kept w' H.
  - assert (w' = w) by (cbn in H; congruence). subst.
    exists 0. cbn. lia.
  - cbn [filterObstacles] in H.
    destruct (obstacleStep rand v snap bh o w)
      as [[[keep o1] w1]|] eqn:E; [|discriminate].
    destruct (filterObstacles rand v snap bh rest w1)
      as [[kept1 w2]|] eqn:F; [|discriminate].
    assert (w' = w2) by congruence. subst w'.
    destruct (IH _ _ _ F) as [k [Hk Hs]].
    apply obstacleStep_flag_points in E.
    cbn [length]. rewrite Nat2Z.inj_succ.
    destruct E as [[_ Z0] | [(_ & _ & Z10) | (_ & _ & Z0)]];
      [exists k | exists (k + 1) | exists k]; lia.
Qed.

(** X15.  What one frame of a running session can add: at most one gate
    to the collection, and to the score 10 points for some of the gates,
    never more than 10 for each gate that the frame starts with or
    spawns.  A frame never takes points away. *)
Theorem frame_budget (rand : nat -> Q) (Math_sin : Q -> Q) (v : Variant)
    (loop : Loop) (snap : Snapshot) (w w' : World) :
  gameRunning (game w) = true ->
  animate rand Math_sin v loop snap w = Some w' ->
  (length (obstacles (game w')) <= length (obstacles (game w)) + 1)%nat /\
  exists k,
    0 <= k <= Z.of_nat (length (obstacles (game w))) + 1 /\
    score (react w') = score (react w) + 10 * k.
Proof.
  intros R H.
  destruct (animate_fields _ _ _ _ _ _ _ R H) as (_ & _ & _ & _ & _ & L).
  split; [exact L|].
  destruct (animate_running _ _ _ _ _ _ _ R H) as [kept [w2 [F D]]].
  apply draw_frame in D. destruct D as (-> & _).
  cbn [updateParticles with_game react].
  apply filterObstacles_points in F. destruct F as [k [Hk Hs]].
  exists k. rewrite Hs, generateObstacles_react, beginFrame_react.
  destruct (generateObstacles_rest rand v snap (beginFrame v loop snap w))
    as (_ & _ & _ & Gl).
  rewrite beginFrame_obstacles in Gl.
  split; [lia|].
  destruct loop; [|reflexivity].
  unfold updateLevel. destruct (negb _); reflexivity.
Qed.

Lemma frame_budget_witness :
  let w := with_game (set_obstacles [sampleGate 399 0])
             (with_game (set_obstacleTimer 79) sampleWorld) in
  let w' := match animate sampleRand sampleSin GameCanvas MainLoop
                    (render w) w with
            | Some x => x
            | None => w
            end in
  (gameRunning (game w) = true /\
   animate sampleRand sampleSin GameCanvas MainLoop (render w) w = Some w') /\
  (length (obstacles (game w')) <= 2)%nat /\
  length (obstacles (game w')) = 2%nat /\ score (react w') = 10.
Proof.
  intros w w'.
  assert (R : gameRunning (game w) = true) by reflexivity.
  assert (H : animate sampleRand sampleSin GameCanvas MainLoop (render w) w
              = Some w') by (vm_compute; reflexivity).
  split; [auto|].
  split; [exact (proj1 (frame_budget sampleRand sampleSin GameCanvas
                          MainLoop (render w) w w' R H))|].
  split; vm_compute; reflexivity.
Defined.

(** ** Collisions *)

Section GateShape.

Variable P : Obstacle -> Prop.
Hypothesis P_ext :
  forall o o', ob_x o' = ob_x o -> ob_width o' = ob_width o -> P o -> P o'.
Hypothesis P_draw :
  forall colors o o', drawObstacle GameCanvas colors o = Some o' -> P o'.
Hypothesis P_spawn :
  forall rand colors w, P (fst (spawnObstacle rand Revised colors w)).

Lemma animate_shape rand Math_sin v loop snap w w' :
  Forall P (obstacles (game w)) ->
  animate rand Math_sin v loop snap w = Some w' ->
  Forall P (obstacles (game w')).
Proof.
  intros C H. destruct (gameRunning (game w)) eqn:R;
    [|rewrite animate_stopped in H by exact R;
      assert (w' = w) by congruence; subst; exact C].
  destruct (animate_running _ _ _ _ _ _ _ R H) as [kept [w2 [F D]]].
  apply draw_frame in D. destruct D as (_ & _ & os & -> & D).
  cbn [obstacles set_obstacles].
  cbn [updateParticles with_game game obstacles set_obstacles set_particles]
    in D.
  apply drawObstacles_each in D.
  destruct v.
  - clear - D P_draw. induction D as [|o o' l l' Do _ IH];
      constructor; [eapply P_draw, Do | exact IH].
  - set (b := beginFrame Revised loop snap w) in *.
    assert (G : Forall P (obstacles (game (generateObstacles rand Revised
                                             snap b)))).
    { destruct (Z_lt_le_dec (obstacleTimer (game b) + 1)
                  (obstacleFrequency Revised (s_score snap))) as [L|L].
      - rewrite generateObstacles_wait by exact L.
        cbn [with_game game obstacles set_obstacleTimer].
        unfold b. rewrite beginFrame_obstacles. exact C.
      - destruct (generateObstacles_spawn rand Revised snap b L) as [_ ->].
        apply Forall_app. split;
          [unfold b; rewrite beginFrame_obstacles; exact C|].
        constructor; [apply P_spawn | constructor]. }
    assert (K : Forall P kept).
    { apply Forall_forall. intros o' Hin.
      destruct (filterObstacles_kept _ _ _ _ _ _ _ _ F _ Hin)
        as (o & w3 & w4 & Ho & S).
      apply obstacleStep_geometry in S. destruct S as (Ex & Ew & _).
      apply (P_ext o o' Ex Ew).
      rewrite Forall_forall in G. apply G, Ho. }
    clear - D K. induction D as [|o o' l l' Do _ IH]; [constructor|].
    inversion K as [|? ? Ko Kl]; subst.
    apply drawObstacle_Revised in Do. subst o'.
    constructor; [exact Ko | apply IH, Kl].
Qed.

Lemma run_shape rand Math_sin v es :
  forall w w',
    Forall P (obstacles (game w)) ->
    run rand Math_sin v w es = Some w' ->
    Forall P (obstacles (game w')).
Proof.
  induction es as [|e rest IH]; intros w w' A H;
    [assert (w' = w) by (cbn in H; congruence); subst; exact A|].
  cbn [run] in H.
  destruct (step rand Math_sin v w e) as [w1|] eqn:S; [|discriminate].
  eapply IH; [|exact H]. clear H IH.
  destruct e as [| |loop|]; cbn [step] in S.
  - destruct (gameStarted (react w));
      assert (E : w1 = w \/ w1 = startGame w)
        by (first [left; congruence | right; congruence]);
      destruct E as [-> | ->]; exact A.
  - destruct (negb _ || negb _);
      [assert (w1 = w) by congruence; subst; exact A|].
    assert (E : w1 = changeColor (render w) w) by congruence. rewrite E.
    unfold changeColor. destruct (negb _); exact A.
  - destruct (negb _); [assert (w1 = w) by congruence; subst; exact A|].
    destruct v, loop;
      try (eapply animate_shape; [exact A | exact S]).
    assert (w1 = w) by congruence; subst; exact A.
  - destruct (_ && _); [|assert (w1 = w) by congruence; subst; exact A].
    destruct v.
    + rewrite handlePopupAction_GameCanvas in S.
      assert (E : w1 = popupReset GameCanvas (render w) w) by congruence.
      rewrite E, popupReset_obstacles. constructor.
    + rewrite handlePopupAction_Revised in S.
      eapply animate_shape; [|exact S].
      rewrite popupReset_obstacles. constructor.
Qed.

End GateShape.

(** X16.  The ball cannot miss a gate sideways.  In every store that a
    session reaches, each gate is centred and has a width above 0, so
    that, wherever the callback of the obstacle filter moves the gate to,
    [collision] is true exactly when the hit-box of the ball, from
    [480 + bounceHeight] to [520 + bounceHeight], meets the gate
    vertically. *)
Theorem collision_is_vertical (rand : nat -> Q) (Math_sin : Q -> Q)
    (v : Variant) (es : list Event) (w : World) :
  run rand Math_sin v initialWorld es = Some w ->
  Forall (fun o =>
            centred o /\ (0 < ob_width o)%Q /\
            forall bounceHeight y,
              collision (ball (game w)) bounceHeight (set_ob_y y o) =
              Qgtb (500 + 20 + bounceHeight)%Q y &&
              Qltb (500 - 20 + bounceHeight)%Q (y + ob_height o)%Q)
         (obstacles (game w)).
Proof.
  intros H.
  destruct (run_sound rand Math_sin v es initialWorld w
              (initialWorld_sound v) H) as [_ (_ & (Bx & By & Br & _) & _)].
  assert (S : Forall (fun o => centred o /\ (0 < ob_width o)%Q)
                (obstacles (game w))).
  { apply (run_shape (fun o => centred o /\ (0 < ob_width o)%Q))
      with (rand := rand) (Math_sin := Math_sin) (v := v) (es := es)
           (w := initialWorld); [| | |constructor|exact H].
    - intros o o' Ex Ew [C W]. unfold centred in *. rewrite Ex, Ew. auto.
    - intros colors o o' D. split; [eapply centred_GameCanvas_draw, D|].
      unfold drawObstacle in D.
      destruct (index colors _); [|discriminate].
      assert (E : ob_width o' = 120%Q)
        by (injection D as <-; reflexivity).
      rewrite E. reflexivity.
    - intros r colors w0. split; reflexivity. }
  eapply Forall_impl; [|exact S].
  intros o [C W]. split; [exact C|]. split; [exact W|].
  intros bh y. unfold collision. rewrite Bx, By, Br.
  cbn [ob_x ob_y ob_width ob_height set_ob_y].
  assert (C2 : (ob_x o + ob_width o * (1 # 2) == 160)%Q).
  { transitivity (ob_x o + ob_width o / 2)%Q; [field|].
    unfold centred in C. rewrite C. reflexivity. }
  assert (A : Qgtb (150 + 20) (ob_x o) = true)
    by (apply Qltb_lt; lra).
  assert (B : Qltb (150 - 20) (ob_x o + ob_width o) = true)
    by (apply Qltb_lt; lra).
  rewrite A, B. reflexivity.
Qed.

Lemma collision_is_vertical_witness :
  let es := [EStart] ++ repeat (EFrame MainLoop) 81 in
  let w := match run sampleRand sampleSin GameCanvas initialWorld es with
           | Some x => x
           | None => initialWorld
           end in
  run sampleRand sampleSin GameCanvas initialWorld es = Some w /\
  length (obstacles (game w)) = 1%nat /\
  Forall (fun o => centred o /\ (0 < ob_width o)%Q) (obstacles (game w)).
Proof.
  intros es w.
  assert (H : run sampleRand sampleSin GameCanvas initialWorld es = Some w)
    by (vm_compute; reflexivity).
  split; [exact H|]. split; [vm_compute; reflexivity|].
  eapply Forall_impl;
    [|exact (collision_is_vertical sampleRand sampleSin GameCanvas es w H)].
  intros o (C & W & _). auto.
Defined.

(** ** Where the levels and the colours come *)

Lemma newLevel_step s :
  0 <= s -> s mod 10 = 0 ->
  (newLevel (s + 10) > newLevel s <-> (s + 10) mod 200 = 0 /\ s + 10 <= 800).
Proof.
  intros H0 H10. rewrite !newLevel_div.
  Z.div_mod_to_equations. lia.
Qed.

(** X17.  [Revised], with the level of the render that of the score:
    scoring pauses the session on the level-up popup exactly when the new
    score is 200, 400, 600 or 800 (a multiple of 200 up to 800), and
    otherwise leaves it running; in [GameCanvas] scoring never stops the
    session. *)
Theorem level_up_scores (snap : Snapshot) (w : World) :
  0 <= score (react w) ->
  score (react w) mod 10 = 0 ->
  s_level snap = newLevel (score (react w)) ->
  gameRunning (game w) = true ->
  (gameRunning (game (awardPoints Revised snap w)) = false <->
   (score (react w) + 10) mod 200 = 0 /\ score (react w) + 10 <= 800) /\
  gameRunning (game (awardPoints GameCanvas snap w)) = true.
Proof.
  intros H0 H10 HL R. split; [|exact R].
  rewrite <- newLevel_step by assumption. rewrite <- HL.
  destruct (Z_gt_le_dec (newLevel (score (react w) + 10)) (s_level snap))
    as [G|G].
  - rewrite awardPoints_levelUp by exact G. cbn. tauto.
  - rewrite awardPoints_same_level by exact G. cbn. rewrite R.
    split; [discriminate | lia].
Qed.

Lemma level_up_scores_witness :
  let w := with_react (setLevel 2)
             (with_react (setScore (fun _ => 390)) sampleWorld) in
  let snap := render w in
  (0 <= score (react w) /\ score (react w) mod 10 = 0 /\
   s_level snap = newLevel (score (react w)) /\
   gameRunning (game w) = true) /\
  gameRunning (game (awardPoints Revised snap w)) = false.
Proof.
  intros w snap.
  assert (H0 : 0 <= score (react w)) by (vm_compute; discriminate).
  assert (H10 : score (react w) mod 10 = 0) by reflexivity.
  assert (HL : s_level snap = newLevel (score (react w))) by reflexivity.
  assert (R : gameRunning (game w) = true) by reflexivity.
  split; [auto|].
  apply (proj1 (level_up_scores snap w H0 H10 HL R)).
  split; [reflexivity | vm_compute; discriminate].
Defined.

(** X18.  The colours in play for the level of a score that is not
    negative: two below 200, and the third comes at 200, the fourth at
    400, the fifth at 600; from 600 on all five are in play, whatever the
    level. *)
Theorem colour_thresholds (s : Z) :
  0 <= s ->
  let n := colorCount (newLevel s) in
  (n = 2 <-> s < 200) /\
  (3 <= n <-> 200 <= s) /\
  (4 <= n <-> 400 <= s) /\
  (n = 5 <-> 600 <= s).
Proof.
  intros H n. unfold n.
  pose proof (newLevel_range s H) as R.
  rewrite colorCount_level by lia. rewrite newLevel_div in *.
  Z.div_mod_to_equations. lia.
Qed.

Lemma colour_thresholds_witness :
  0 <= 190 /\ colorCount (newLevel 190) = 2 /\
  (0 <= 200 /\ 3 <= colorCount (newLevel 200)) /\
  (0 <= 650 /\ colorCount (newLevel 650) = 5).
Proof.
  assert (A : 0 <= 190) by lia.
  assert (B : 0 <= 200) by lia.
  assert (C : 0 <= 650) by lia.
  split; [exact A|].
  split; [apply (proj1 (colour_thresholds 190 A)); lia|].
  split; (split; [assumption|]).
  - apply (proj1 (proj2 (colour_thresholds 200 B))). lia.
  - apply (proj2 (proj2 (proj2 (colour_thresholds 650 C)))). lia.
Defined.
